(** * gfuture: a future/promise on top of an unbuffered Go channel

    Shallow embedding of [gfuture.go] (the timeout/poll variant) and of the
    context-cancellable variant of the same package.

    A [Future[T]] is a [chan payload[T]]: a reference to an unbuffered
    channel.  The library functions are short straight-line goroutine bodies
    built from channel operations ([f <- p], [close(f)], [<-f], [select]),
    so they are embedded as programs of a small command monad [prog], and
    the Go runtime (rendezvous on an unbuffered channel, receive from a
    closed channel, panics, [go] statements, timers, contexts) is embedded
    as an executable scheduler-driven step function on a pool of
    goroutines. *)

From stdpp Require Import base list strings.
From Stdlib Require Import ZArith Lia.

Set Implicit Arguments.
Set Default Proof Using "Type".

(** ** Go values *)

(** The [error] interface: [nil] or a non-nil error value.  The non-nil
    values that occur are the two errors of package [context] and the
    errors made by [errors.New]. *)
Inductive go_error : Type :=
| Canceled
| DeadlineExceeded
| ErrorString (msg : string).

Definition error : Type := option go_error.
Definition nil : error := None.

(** Every Go type has a zero value ([var zero T]). *)
Class GoType (T : Type) : Type := zeroValue : T.

#[export] Instance Z_GoType : GoType Z := 0%Z.
#[export] Instance nat_GoType : GoType nat := 0.
#[export] Instance bool_GoType : GoType bool := false.
#[export] Instance string_GoType : GoType string := EmptyString.

(** [time.Duration], and the instant at which a timer made by
    [time.After] fires, on a logical clock. *)
Definition duration : Type := nat.
Definition timer : Type := nat.
Bind Scope nat_scope with duration timer.

(** [const zeroDuration = 0 * time.Nanosecond] *)
Definition zeroDuration : duration := 0 * 1.

(** [context.Context]: [context.Background()] is never done; any other
    context refers to a cancellation cell of the runtime state. *)
Inductive context : Type :=
| Background
| WithCancel (c : nat).

(** A [Future[T]] is a channel value: a reference into the channel heap.
    A reference outside the heap behaves as the nil channel. *)
Definition Future : Type := nat.
Bind Scope nat_scope with Future.

Section Runtime.

Context {T : Type} `{GoType T} {O : Type}.

(** [type payload[T any] struct { val T; err error }] *)
Record payload : Type := mkPayload { val : T; err : error }.

(** The zero value of [payload[T]], which a receive from a closed channel
    yields. *)
Definition zero_payload : payload := {| val := zeroValue; err := nil |}.

(** A composite literal [payload[T]{...}]: omitted fields take their zero
    value. *)
Definition payload_lit (v : option T) (e : option error) : payload :=
  {| val := default zeroValue v; err := default nil e |}.

(** [type Optional[T any] struct { Present bool; Value T; Err error }]
    (the fields carry the struct's name, as [Value] is also a method of
    [Future]) *)
Record Optional : Type := mkOptional {
  Optional_Present : bool;
  Optional_Value : T;
  Optional_Err : error
}.

(** ** Goroutine bodies

    A program is a tree of channel, timer, context and [go] commands, each
    with the continuation that consumes its result.  [Report] stands for
    the observable output of client code ([fmt.Println], a test
    assertion). *)
Inductive prog (R : Type) : Type :=
| Ret (r : R)
| MakeChan (k : Future -> prog R)
| Send (f : Future) (p : payload) (k : prog R)
| Close (f : Future) (k : prog R)
| Recv (f : Future) (k : payload -> prog R)
| SelectCtx (f : Future) (ctx : context) (krecv : payload -> prog R) (kdone : prog R)
| CtxErr (ctx : context) (k : error -> prog R)
| TimeAfter (d : duration) (k : timer -> prog R)
| SelectTimer (f : Future) (tm : timer) (krecv : payload -> prog R) (kfired : prog R)
| Go (child : prog unit) (k : prog R)
| Report (o : O) (k : prog R).

Arguments Ret {R} r.
Arguments MakeChan {R} k.
Arguments Send {R} f p k.
Arguments Close {R} f k.
Arguments Recv {R} f k.
Arguments SelectCtx {R} f ctx krecv kdone.
Arguments CtxErr {R} ctx k.
Arguments TimeAfter {R} d k.
Arguments SelectTimer {R} f tm krecv kfired.
Arguments Go {R} child k.
Arguments Report {R} o k.

Fixpoint bind {R S : Type} (m : prog R) (k : R -> prog S) : prog S :=
  match m with
  | Ret r => k r
  | MakeChan g => MakeChan (fun c => bind (g c) k)
  | Send f p m' => Send f p (bind m' k)
  | Close f m' => Close f (bind m' k)
  | Recv f g => Recv f (fun p => bind (g p) k)
  | SelectCtx f ctx g m' => SelectCtx f ctx (fun p => bind (g p) k) (bind m' k)
  | CtxErr ctx g => CtxErr ctx (fun e => bind (g e) k)
  | TimeAfter d g => TimeAfter d (fun tm => bind (g tm) k)
  | SelectTimer f tm g m' => SelectTimer f tm (fun p => bind (g p) k) (bind m' k)
  | Go child m' => Go child (bind m' k)
  | Report o m' => Report o (bind m' k)
  end.

Notation "x <- m ;; k" := (bind m (fun x => k))
  (at level 62, m at next level, right associativity).

(** ** The runtime state

    [chans]: the channel heap, one flag per channel made so far
    ([true] = closed); the channels are unbuffered, so a channel holds no
    value: a value only passes from a goroutine blocked in a send to a
    goroutine blocked in a receive.
    [threads]: the goroutines; a finished goroutine stays in the pool as
    [Ret tt].
    [ctxs]: the cancellation cells; [None] = not done, [Some e] = [Done()]
    is closed and [Err()] returns [e].
    [now]: the logical clock.  [log]: what client code reported.
    [panicked]: an unrecovered panic aborts the whole program. *)
Inductive panic : Type :=
| SendOnClosedChannel
| CloseOfClosedChannel
| CloseOfNilChannel.

Record state : Type := mkState {
  chans : list bool;
  threads : list (prog unit);
  ctxs : list error;
  now : nat;
  log : list O;
  panicked : option panic
}.

Definition set_thread (i : nat) (p : prog unit) (st : state) : state :=
  {| chans := chans st; threads := <[i:=p]> (threads st); ctxs := ctxs st;
     now := now st; log := log st; panicked := panicked st |}.

Definition set_chans (cs : list bool) (st : state) : state :=
  {| chans := cs; threads := threads st; ctxs := ctxs st;
     now := now st; log := log st; panicked := panicked st |}.

Definition spawn (child : prog unit) (st : state) : state :=
  {| chans := chans st; threads := threads st ++ [child]; ctxs := ctxs st;
     now := now st; log := log st; panicked := panicked st |}.

Definition report (o : O) (st : state) : state :=
  {| chans := chans st; threads := threads st; ctxs := ctxs st;
     now := now st; log := log st ++ [o]; panicked := panicked st |}.

Definition raise (e : panic) (st : state) : state :=
  {| chans := chans st; threads := threads st; ctxs := ctxs st;
     now := now st; log := log st; panicked := Some e |}.

Definition tick (st : state) : state :=
  {| chans := chans st; threads := threads st; ctxs := ctxs st;
     now := S (now st); log := log st; panicked := panicked st |}.

Definition set_ctxs (cx : list error) (st : state) : state :=
  {| chans := chans st; threads := threads st; ctxs := cx;
     now := now st; log := log st; panicked := panicked st |}.

(** [ctx.Err()]: nil until the context is done, then the reason. *)
Definition ctx_err (st : state) (ctx : context) : error :=
  match ctx with
  | Background => nil
  | WithCancel c => default nil (ctxs st !! c)
  end.

(** Whether a receive from [ctx.Done()] can proceed. *)
Definition ctx_done (st : state) (ctx : context) : bool :=
  match ctx_err st ctx with Some _ => true | None => false end.

(** The receive on [f] that a goroutine is blocked in, if any: a plain
    receive or the receive case of one of the two [select] statements. *)
Definition recv_cont (q : prog unit) (f : Future) : option (payload -> prog unit) :=
  match q with
  | Recv f' k => if decide (f' = f) then Some k else None
  | SelectCtx f' _ k _ => if decide (f' = f) then Some k else None
  | SelectTimer f' _ k _ => if decide (f' = f) then Some k else None
  | _ => None
  end.

(** ** Scheduler choices *)
Inductive choice : Type :=
| Run (i : nat)                  (* goroutine [i] takes a step on its own *)
| Sync (i j : nat)               (* sender [i] hands its value to receiver [j] *)
| Alt (j : nat)                  (* the [select] of [j] takes its second case *)
| Tick                           (* the clock advances *)
| Cancel (c : nat) (reason : go_error).  (* context [c] is cancelled or expires *)

(** A step of goroutine [i] that needs no partner.
    - a send or a receive on an open (or nil) channel cannot proceed alone;
    - a send on a closed channel panics; a receive from a closed channel
      yields the zero value at once;
    - [close] closes an open channel and panics on a closed or nil one. *)
Definition run_thread (i : nat) (st : state) : option state :=
  match threads st !! i with
  | None => None
  | Some p =>
    match p with
    | Ret _ => None
    | MakeChan k =>
        Some (set_thread i (k (length (chans st))) (set_chans (chans st ++ [false]) st))
    | Send f _ _ =>
        match chans st !! f with
        | Some true => Some (raise SendOnClosedChannel st)
        | _ => None
        end
    | Close f k =>
        match chans st !! f with
        | Some false => Some (set_thread i k (set_chans (<[f:=true]> (chans st)) st))
        | Some true => Some (raise CloseOfClosedChannel st)
        | None => Some (raise CloseOfNilChannel st)
        end
    | Recv f k | SelectCtx f _ k _ | SelectTimer f _ k _ =>
        match chans st !! f with
        | Some true => Some (set_thread i (k zero_payload) st)
        | _ => None
        end
    | CtxErr ctx k => Some (set_thread i (k (ctx_err st ctx)) st)
    | TimeAfter d k => Some (set_thread i (k (now st + d)) st)
    | Go child k => Some (spawn child (set_thread i k st))
    | Report o k => Some (report o (set_thread i k st))
    end
  end.

(** Rendezvous on an open unbuffered channel: the sender [i] and a
    receiver [j] of the same channel proceed together, and the value
    passes from one to the other. *)
Definition sync (i j : nat) (st : state) : option state :=
  match threads st !! i with
  | Some (Send f p k) =>
      match chans st !! f with
      | Some false =>
          match threads st !! j with
          | Some q =>
              match recv_cont q f with
              | Some kr => Some (set_thread j (kr p) (set_thread i k st))
              | None => None
              end
          | None => None
          end
      | _ => None
      end
  | _ => None
  end.

(** The second case of a [select]: [<-ctx.Done()] once the context is
    done, [<-time.After(t)] once the timer has fired. *)
Definition alt (j : nat) (st : state) : option state :=
  match threads st !! j with
  | Some (SelectCtx _ ctx _ kdone) =>
      if ctx_done st ctx then Some (set_thread j kdone st) else None
  | Some (SelectTimer _ tm _ kfired) =>
      if decide (tm <= now st) then Some (set_thread j kfired st) else None
  | _ => None
  end.

Definition cancel (c : nat) (reason : go_error) (st : state) : option state :=
  match ctxs st !! c with
  | Some None => Some (set_ctxs (<[c:=Some reason]> (ctxs st)) st)
  | _ => None
  end.

Definition step (c : choice) (st : state) : option state :=
  match panicked st with
  | Some _ => None
  | None =>
    match c with
    | Run i => run_thread i st
    | Sync i j => sync i j st
    | Alt j => alt j st
    | Tick => Some (tick st)
    | Cancel c reason => cancel c reason st
    end
  end.

Fixpoint run (sched : list choice) (st : state) : option state :=
  match sched with
  | [] => Some st
  | c :: sched' =>
      match step c st with
      | Some st' => run sched' st'
      | None => None
      end
  end.

(** Goroutine [i] is blocked: no choice of the scheduler moves it. *)
Definition blocked (st : state) (i : nat) : Prop :=
  step (Run i) st = None /\ step (Alt i) st = None /\
  (forall j, step (Sync i j) st = None) /\ (forall j, step (Sync j i) st = None).

(** ** Reading a state *)

Definition alive (st : state) : Prop := panicked st = None.
Definition is_open (st : state) (f : Future) : Prop := chans st !! f = Some false.
Definition is_closed (st : state) (f : Future) : Prop := chans st !! f = Some true.

(** Goroutine [i] is about to run [q]. *)
Definition at_thread (st : state) (i : nat) (q : prog unit) : Prop :=
  threads st !! i = Some q.

(** The future [f] is unresolved: its channel is open and no goroutine is
    offering a value on it. *)
Definition unresolved (st : state) (f : Future) : Prop :=
  is_open st f /\
  forall i p (k : prog unit), threads st !! i <> Some (Send f p k).

(** The goroutines a choice sets in motion. *)
Definition involves (c : choice) (n : nat) : Prop :=
  match c with
  | Run i => i = n
  | Sync i j => i = n \/ j = n
  | Alt j => j = n
  | Tick | Cancel _ _ => False
  end.

(** What one step makes of goroutine [n], seen from the goroutine:
    [moves st n c q q'] when the choice [c], taken in [st], takes [n] from
    [q] to [q']. *)
Inductive moves (st : state) (n : nat) : choice -> prog unit -> prog unit -> Prop :=
| mv_make_chan k :
    moves st n (Run n) (MakeChan k) (k (length (chans st)))
| mv_send f p k j :
    is_open st f -> moves st n (Sync n j) (Send f p k) k
| mv_close f k :
    is_open st f -> moves st n (Run n) (Close f k) k
| mv_recv q f kr s p ks :
    recv_cont q f = Some kr -> is_open st f -> at_thread st s (Send f p ks) ->
    moves st n (Sync s n) q (kr p)
| mv_recv_closed q f kr :
    recv_cont q f = Some kr -> is_closed st f ->
    moves st n (Run n) q (kr zero_payload)
| mv_ctx_done f ctx kr kd reason :
    ctx_err st ctx = Some reason ->
    moves st n (Alt n) (SelectCtx f ctx kr kd) kd
| mv_timer f tm kr kf :
    tm <= now st -> moves st n (Alt n) (SelectTimer f tm kr kf) kf
| mv_ctx_err ctx g :
    moves st n (Run n) (CtxErr ctx g) (g (ctx_err st ctx))
| mv_time_after d g :
    moves st n (Run n) (TimeAfter d g) (g (now st + d))
| mv_go child k :
    moves st n (Run n) (Go child k) k
| mv_report o k :
    moves st n (Run n) (Report o k) k.

(** ** The library (functions shared by both variants of the package) *)

(** [func NewFuture[T any]() Future[T] { return make(chan payload[T]) }] *)
Definition NewFuture : prog Future := MakeChan (fun c => Ret c).

(** [func (f Future[T]) sendAndClose(p payload[T]) { f <- p; close(f) }] *)
Definition sendAndClose (f : Future) (p : payload) : prog unit :=
  Send f p (Close f (Ret tt)).

(** [f.sendAndClose(payload[T]{val: value, err: err})] *)
Definition Resolve (f : Future) (value : T) (err : error) : prog unit :=
  sendAndClose f (payload_lit (Some value) (Some err)).

(** [f.sendAndClose(payload[T]{val: value})] *)
Definition Value (f : Future) (value : T) : prog unit :=
  sendAndClose f (payload_lit (Some value) None).

(** [f.sendAndClose(payload[T]{err: err})] *)
Definition Error (f : Future) (err : error) : prog unit :=
  sendAndClose f (payload_lit None (Some err)).

(** [f := NewFuture[T](); go func() { f.Resolve(provider()) }(); return f] *)
Definition Async (provider : prog (T * error)) : prog Future :=
  f <- NewFuture ;;
  Go (r <- provider ;; Resolve f (fst r) (snd r)) (Ret f).

(** Where the goroutine started by [Async] can be: running the provider
    under the continuation that resolves [f] with what the provider
    returns (the send of that [Resolve] included, the provider having
    returned), closing [f], or finished. *)
Definition async_goroutine (st : state) (n : nat) (f : Future) : Prop :=
  (exists m : prog (T * error), at_thread st n (r <- m ;; Resolve f (fst r) (snd r))) \/
  at_thread st n (Close f (Ret tt)) \/
  at_thread st n (Ret tt).

End Runtime.

Arguments prog : clear implicits.
Arguments state : clear implicits.
Arguments payload : clear implicits.
Arguments Optional : clear implicits.

Notation "x <- m ;; k" := (bind m (fun x => k))
  (at level 62, m at next level, right associativity).

(** ** gfuture.go: blocking await, await with a timeout, poll *)
Module Poll.
Section Poll.

Context {T : Type} `{GoType T} {O : Type}.
#[local] Abbreviation prog := (prog T O).

(** [payload := <-f; return payload.val, payload.err] *)
Definition Await (f : Future) : prog (T * error) :=
  Recv f (fun payload => Ret (val payload, err payload)).

(** [select { case payload := <-f: return payload.val, payload.err, true
             case <-time.After(t): var zero T; return zero, nil, false }]
    The operand [time.After(t)] is evaluated once, on entering the
    [select]. *)
Definition AwaitWithTimeout (f : Future) (t : duration) : prog (T * error * bool) :=
  TimeAfter t (fun tm =>
    SelectTimer f tm
      (fun payload => Ret (val payload, err payload, true))
      (Ret (zeroValue, nil, false))).

(** [val, err, present := f.AwaitWithTimeout(zeroDuration)
     return Optional[T]{Present: present, Value: val, Err: err}] *)
Definition Get (f : Future) : prog (Optional T) :=
  r <- AwaitWithTimeout f zeroDuration ;;
  Ret {| Optional_Present := snd r;
         Optional_Value := fst (fst r);
         Optional_Err := snd (fst r) |}.

(** [go func() { consumer(f.Await()) }()] *)
Definition Then (f : Future) (consumer : T -> error -> prog unit) : prog unit :=
  Go (r <- Await f ;; consumer (fst r) (snd r)) (Ret tt).

End Poll.
End Poll.

(** ** The context variant: await and continuation under a context *)
Module Ctx.
Section Ctx.

Context {T : Type} `{GoType T} {O : Type}.
#[local] Abbreviation prog := (prog T O).

(** [select { case payload := <-f: return payload.val, payload.err
             case <-ctx.Done(): var zero T; return zero, ctx.Err() }] *)
Definition Await (f : Future) (ctx : context) : prog (T * error) :=
  SelectCtx f ctx
    (fun payload => Ret (val payload, err payload))
    (CtxErr ctx (fun e => Ret (zeroValue, e))).

(** [go func() { consumer(f.Await(ctx)) }()] *)
Definition Then (f : Future) (ctx : context) (consumer : T -> error -> prog unit) : prog unit :=
  Go (r <- Await f ctx ;; consumer (fst r) (snd r)) (Ret tt).

End Ctx.
End Ctx.


(** * Client programs

    Futures of [int], in programs that report the pairs their awaits
    return, each with the name of the goroutine that reports. *)

Module Client.

#[local] Open Scope string_scope.
#[local] Open Scope Z_scope.

Abbreviation obs := (string * (Z * error))%type.
Abbreviation prog := (prog Z obs).
Abbreviation state := (state Z obs).

(** A program starts as one goroutine, [main], with no channel made yet. *)
Definition boot (main : prog unit) (cx : list error) : state :=
  {| chans := []; threads := [main]; ctxs := cx; now := 0%nat; log := [];
     panicked := None |}.

Definition report_as (who : string) (r : Z * error) : prog unit :=
  Report (who, r) (Ret tt).

(** [f := NewFuture[int](); go func() { report(f.Await()) }();
     f.Value(v); report(f.Await())] *)
Definition value_then_await (v : Z) : prog unit :=
  f <- NewFuture ;;
  Go (r <- Poll.Await f ;; report_as "first" r)
     (_ <- Value f v ;;
      r <- Poll.Await f ;; report_as "main" r).

(** The same with [f.Error(e)]. *)
Definition error_then_await (e : error) : prog unit :=
  f <- NewFuture ;;
  Go (r <- Poll.Await f ;; report_as "first" r)
     (_ <- Error f e ;;
      r <- Poll.Await f ;; report_as "main" r).

(** [f := NewFuture[int](); f.Resolve(v, nil); report(...)]: a resolve with
    no goroutine awaiting. *)
Definition resolve_alone (v : Z) : prog unit :=
  f <- NewFuture ;;
  _ <- Resolve f v nil ;;
  report_as "main" (v, nil).

(** The state in which [resolve_alone] is stuck, at time [t]. *)
Definition resolve_alone_stuck (v : Z) (t : nat) : state :=
  {| chans := [false];
     threads := [_ <- Resolve 0%nat v nil ;; report_as "main" (v, nil)];
     ctxs := []; now := t; log := []; panicked := None |}.

(** One future, open, and the goroutines [ts]. *)
Definition pool (ts : list (prog unit)) (cx : list error) : state :=
  {| chans := [false]; threads := ts; ctxs := cx; now := 0%nat; log := [];
     panicked := None |}.

Definition boom : error := Some (ErrorString "boom").

Definition report_optional (o : Optional Z) : prog unit :=
  report_as (if Optional_Present o then "present" else "absent")
            (Optional_Value o, Optional_Err o).

Definition report_then (v : Z) (e : error) : prog unit := report_as "then" (v, e).

(** The states [value_then_await v] can be in, whatever the schedule:
    channel heap, goroutines and reports (the clock is free). *)
Definition snapshot (cs : list bool) (ts : list (prog unit)) (l : list obs)
    (t : nat) : state :=
  {| chans := cs; threads := ts; ctxs := []; now := t; log := l; panicked := None |}.

Definition main_resolves (v : Z) : prog unit :=
  _ <- Value 0%nat v ;; r <- Poll.Await 0%nat ;; report_as "main" r.
Definition main_closes : prog unit :=
  Close 0%nat (r <- Poll.Await 0%nat ;; report_as "main" r).
Definition main_awaits : prog unit := r <- Poll.Await 0%nat ;; report_as "main" r.
Definition first_awaits : prog unit := r <- Poll.Await 0%nat ;; report_as "first" r.

Inductive value_then_await_state (v : Z) : state -> Prop :=
| vta_start t :
    value_then_await_state v (snapshot [] [value_then_await v] [] t)
| vta_made t :
    value_then_await_state v
      (snapshot [false] [Go first_awaits (main_resolves v)] [] t)
| vta_both t :
    value_then_await_state v
      (snapshot [false] [main_resolves v; first_awaits] [] t)
| vta_handed t :
    value_then_await_state v
      (snapshot [false] [main_closes; report_as "first" (v, nil)] [] t)
| vta_handed_reported t :
    value_then_await_state v
      (snapshot [false] [main_closes; Ret tt] [("first", (v, nil))] t)
| vta_closed t :
    value_then_await_state v
      (snapshot [true] [main_awaits; report_as "first" (v, nil)] [] t)
| vta_closed_reported t :
    value_then_await_state v
      (snapshot [true] [main_awaits; Ret tt] [("first", (v, nil))] t)
| vta_zero t :
    value_then_await_state v
      (snapshot [true] [report_as "main" (0, nil); report_as "first" (v, nil)] [] t)
| vta_zero_first t :
    value_then_await_state v
      (snapshot [true] [report_as "main" (0, nil); Ret tt] [("first", (v, nil))] t)
| vta_zero_main t :
    value_then_await_state v
      (snapshot [true] [Ret tt; report_as "first" (v, nil)] [("main", (0, nil))] t)
| vta_done_first_main t :
    value_then_await_state v
      (snapshot [true] [Ret tt; Ret tt] [("first", (v, nil)); ("main", (0, nil))] t)
| vta_done_main_first t :
    value_then_await_state v
      (snapshot [true] [Ret tt; Ret tt] [("main", (0, nil)); ("first", (v, nil))] t).

(** [report(Async(func() (int, error) { return v, e }).Await())], and
    the states it can be in, whatever the schedule. *)
Definition async_then_await (v : Z) (e : error) : prog unit :=
  f <- Async (Ret (v, e)) ;;
  r <- Poll.Await f ;; report_as "main" r.

Inductive async_then_await_state (v : Z) (e : error) : state -> Prop :=
| ata_start t :
    async_then_await_state v e (snapshot [] [async_then_await v e] [] t)
| ata_made t :
    async_then_await_state v e
      (snapshot [false] [Go (Resolve 0%nat v e) main_awaits] [] t)
| ata_both t :
    async_then_await_state v e
      (snapshot [false] [main_awaits; Resolve 0%nat v e] [] t)
| ata_handed t :
    async_then_await_state v e
      (snapshot [false] [report_as "main" (v, e); Close 0%nat (Ret tt)] [] t)
| ata_reported t :
    async_then_await_state v e
      (snapshot [false] [Ret tt; Close 0%nat (Ret tt)] [("main", (v, e))] t)
| ata_closed t :
    async_then_await_state v e
      (snapshot [true] [report_as "main" (v, e); Ret tt] [] t)
| ata_done t :
    async_then_await_state v e
      (snapshot [true] [Ret tt; Ret tt] [("main", (v, e))] t).

(** [f := NewFuture[int](); go report(f.Await());
     f.Resolve(v1, nil); f.Resolve(v2, nil)], and the states it can be in,
    whatever the schedule. *)
Definition resolve_twice (v1 v2 : Z) : prog unit :=
  f <- NewFuture ;;
  Go (r <- Poll.Await f ;; report_as "first" r)
     (_ <- Resolve f v1 nil ;; Resolve f v2 nil).

Definition second_resolve (v2 : Z) : prog unit := Resolve 0%nat v2 nil.

Inductive resolve_twice_state (v1 v2 : Z) : state -> Prop :=
| rt_start t :
    resolve_twice_state v1 v2 (snapshot [] [resolve_twice v1 v2] [] t)
| rt_made t :
    resolve_twice_state v1 v2
      (snapshot [false]
         [Go first_awaits (_ <- Resolve 0%nat v1 nil ;; second_resolve v2)] [] t)
| rt_both t :
    resolve_twice_state v1 v2
      (snapshot [false]
         [_ <- Resolve 0%nat v1 nil ;; second_resolve v2; first_awaits] [] t)
| rt_handed t :
    resolve_twice_state v1 v2
      (snapshot [false]
         [Close 0%nat (second_resolve v2); report_as "first" (v1, nil)] [] t)
| rt_handed_reported t :
    resolve_twice_state v1 v2
      (snapshot [false]
         [Close 0%nat (second_resolve v2); Ret tt] [("first", (v1, nil))] t)
| rt_closed t :
    resolve_twice_state v1 v2
      (snapshot [true] [second_resolve v2; report_as "first" (v1, nil)] [] t)
| rt_closed_reported t :
    resolve_twice_state v1 v2
      (snapshot [true] [second_resolve v2; Ret tt] [("first", (v1, nil))] t)
| rt_panicked t :
    resolve_twice_state v1 v2
      (raise SendOnClosedChannel
         (snapshot [true] [second_resolve v2; report_as "first" (v1, nil)] [] t))
| rt_panicked_reported t :
    resolve_twice_state v1 v2
      (raise SendOnClosedChannel
         (snapshot [true] [second_resolve v2; Ret tt] [("first", (v1, nil))] t)).

(** [future := NewFuture[int]()
     Async(func() (int, error) { return v, e }).Then(ctx, func(value int, err error) {
       future.Resolve(value, err) })
     report(future.Await(ctx))] with [ctx := context.Background()]: the
    continuation of one future resolves another. *)
Definition then_chain (v : Z) (e : error) : prog unit :=
  future <- NewFuture ;;
  a <- Async (Ret (v, e)) ;;
  _ <- Ctx.Then a Background (fun value err => Resolve future value err) ;;
  r <- Ctx.Await future Background ;; report_as "main" r.

Definition chain_awaits : prog unit :=
  r <- Ctx.Await 0%nat Background ;; report_as "main" r.
Definition chain_relay : prog unit :=
  r <- Ctx.Await 1%nat Background ;; Resolve 0%nat (fst r) (snd r).

Inductive then_chain_state (v : Z) (e : error) : state -> Prop :=
| tc_start t :
    then_chain_state v e (snapshot [] [then_chain v e] [] t)
| tc_future t :
    then_chain_state v e
      (snapshot [false]
         [a <- Async (Ret (v, e)) ;;
          _ <- Ctx.Then a Background (fun value err => Resolve 0%nat value err) ;;
          chain_awaits] [] t)
| tc_async t :
    then_chain_state v e
      (snapshot [false; false]
         [Go (Resolve 1%nat v e) (Go chain_relay chain_awaits)] [] t)
| tc_then t :
    then_chain_state v e
      (snapshot [false; false]
         [Go chain_relay chain_awaits; Resolve 1%nat v e] [] t)
| tc_waiting t :
    then_chain_state v e
      (snapshot [false; false]
         [chain_awaits; Resolve 1%nat v e; chain_relay] [] t)
| tc_relayed t :
    then_chain_state v e
      (snapshot [false; false]
         [chain_awaits; Close 1%nat (Ret tt); Resolve 0%nat v e] [] t)
| tc_relayed' t :
    then_chain_state v e
      (snapshot [false; true] [chain_awaits; Ret tt; Resolve 0%nat v e] [] t)
| tc_handed t :
    then_chain_state v e
      (snapshot [false; false]
         [report_as "main" (v, e); Close 1%nat (Ret tt); Close 0%nat (Ret tt)] [] t)
| tc_handed' t :
    then_chain_state v e
      (snapshot [false; true]
         [report_as "main" (v, e); Ret tt; Close 0%nat (Ret tt)] [] t)
| tc_reported t :
    then_chain_state v e
      (snapshot [false; false]
         [Ret tt; Close 1%nat (Ret tt); Close 0%nat (Ret tt)] [("main", (v, e))] t)
| tc_reported' t :
    then_chain_state v e
      (snapshot [false; true]
         [Ret tt; Ret tt; Close 0%nat (Ret tt)] [("main", (v, e))] t)
| tc_closed t :
    then_chain_state v e
      (snapshot [true; false]
         [report_as "main" (v, e); Close 1%nat (Ret tt); Ret tt] [] t)
| tc_closed' t :
    then_chain_state v e
      (snapshot [true; true] [report_as "main" (v, e); Ret tt; Ret tt] [] t)
| tc_done t :
    then_chain_state v e
      (snapshot [true; false]
         [Ret tt; Close 1%nat (Ret tt); Ret tt] [("main", (v, e))] t)
| tc_done' t :
    then_chain_state v e
      (snapshot [true; true] [Ret tt; Ret tt; Ret tt] [("main", (v, e))] t).

(** States with contexts. *)
Definition snapshot_ctx (cs : list bool) (ts : list (prog unit)) (l : list obs)
    (cx : list error) (t : nat) : state :=
  {| chans := cs; threads := ts; ctxs := cx; now := t; log := l; panicked := None |}.

(** [report(Async(func() (int, error) { return v, nil }).Await(ctx))]
    under a context that can be cancelled, and the states it can be in,
    whatever the schedule. *)
Definition await_under_ctx (v : Z) : prog unit :=
  f <- Async (Ret (v, nil)) ;;
  r <- Ctx.Await f (WithCancel 0) ;; report_as "main" r.

Definition ctx_awaits : prog unit :=
  r <- Ctx.Await 0%nat (WithCancel 0) ;; report_as "main" r.

Inductive await_under_ctx_state (v : Z) : state -> Prop :=
| auc_start c t :
    await_under_ctx_state v (snapshot_ctx [] [await_under_ctx v] [] [c] t)
| auc_made c t :
    await_under_ctx_state v
      (snapshot_ctx [false] [Go (Resolve 0%nat v nil) ctx_awaits] [] [c] t)
| auc_both c t :
    await_under_ctx_state v
      (snapshot_ctx [false] [ctx_awaits; Resolve 0%nat v nil] [] [c] t)
| auc_handed c t :
    await_under_ctx_state v
      (snapshot_ctx [false] [report_as "main" (v, nil); Close 0%nat (Ret tt)] [] [c] t)
| auc_reported c t :
    await_under_ctx_state v
      (snapshot_ctx [false] [Ret tt; Close 0%nat (Ret tt)] [("main", (v, nil))] [c] t)
| auc_closed c t :
    await_under_ctx_state v
      (snapshot_ctx [true] [report_as "main" (v, nil); Ret tt] [] [c] t)
| auc_done c t :
    await_under_ctx_state v
      (snapshot_ctx [true] [Ret tt; Ret tt] [("main", (v, nil))] [c] t)
| auc_reading reason t :
    await_under_ctx_state v
      (snapshot_ctx [false]
         [CtxErr (WithCancel 0) (fun e => report_as "main" (0, e)); Resolve 0%nat v nil]
         [] [Some reason] t)
| auc_gave_up reason t :
    await_under_ctx_state v
      (snapshot_ctx [false]
         [report_as "main" (0, Some reason); Resolve 0%nat v nil] [] [Some reason] t)
| auc_left reason t :
    await_under_ctx_state v
      (snapshot_ctx [false]
         [Ret tt; Resolve 0%nat v nil] [("main", (0, Some reason))] [Some reason] t).

(** [f := NewFuture[int](); go report(f.Await()); go report(f.Await());
     f.Value(v)]: two goroutines await one future; and the states the
    program can be in, whatever the schedule. *)
Definition two_awaiters (v : Z) : prog unit :=
  f <- NewFuture ;;
  Go (r <- Poll.Await f ;; report_as "a" r)
     (Go (r <- Poll.Await f ;; report_as "b" r)
         (Value f v)).

Definition awaits_as (who : string) : prog unit :=
  r <- Poll.Await 0%nat ;; report_as who r.

Inductive two_awaiters_state (v : Z) : state -> Prop :=
| ta_start t :
    two_awaiters_state v (snapshot [] [two_awaiters v] [] t)
| ta_made t :
    two_awaiters_state v
      (snapshot [false] [Go (awaits_as "a") (Go (awaits_as "b") (Value 0%nat v))] [] t)
| ta_one t :
    two_awaiters_state v
      (snapshot [false] [Go (awaits_as "b") (Value 0%nat v); awaits_as "a"] [] t)
| ta_all t :
    two_awaiters_state v
      (snapshot [false] [Value 0%nat v; awaits_as "a"; awaits_as "b"] [] t)
(* [a] takes the value *)
| ta_a1 t :
    two_awaiters_state v
      (snapshot [false]
         [Close 0%nat (Ret tt); report_as "a" (v, nil); awaits_as "b"] [] t)
| ta_a2 t :
    two_awaiters_state v
      (snapshot [false]
         [Close 0%nat (Ret tt); Ret tt; awaits_as "b"] [("a", (v, nil))] t)
| ta_a3 t :
    two_awaiters_state v
      (snapshot [true] [Ret tt; report_as "a" (v, nil); awaits_as "b"] [] t)
| ta_a4 t :
    two_awaiters_state v
      (snapshot [true] [Ret tt; Ret tt; awaits_as "b"] [("a", (v, nil))] t)
| ta_a5 t :
    two_awaiters_state v
      (snapshot [true] [Ret tt; report_as "a" (v, nil); report_as "b" (0, nil)] [] t)
| ta_a6 t :
    two_awaiters_state v
      (snapshot [true] [Ret tt; Ret tt; report_as "b" (0, nil)] [("a", (v, nil))] t)
| ta_a7 t :
    two_awaiters_state v
      (snapshot [true] [Ret tt; report_as "a" (v, nil); Ret tt] [("b", (0, nil))] t)
| ta_a8 t :
    two_awaiters_state v
      (snapshot [true] [Ret tt; Ret tt; Ret tt] [("a", (v, nil)); ("b", (0, nil))] t)
| ta_a9 t :
    two_awaiters_state v
      (snapshot [true] [Ret tt; Ret tt; Ret tt] [("b", (0, nil)); ("a", (v, nil))] t)
(* [b] takes the value *)
| ta_b1 t :
    two_awaiters_state v
      (snapshot [false]
         [Close 0%nat (Ret tt); awaits_as "a"; report_as "b" (v, nil)] [] t)
| ta_b2 t :
    two_awaiters_state v
      (snapshot [false]
         [Close 0%nat (Ret tt); awaits_as "a"; Ret tt] [("b", (v, nil))] t)
| ta_b3 t :
    two_awaiters_state v
      (snapshot [true] [Ret tt; awaits_as "a"; report_as "b" (v, nil)] [] t)
| ta_b4 t :
    two_awaiters_state v
      (snapshot [true] [Ret tt; awaits_as "a"; Ret tt] [("b", (v, nil))] t)
| ta_b5 t :
    two_awaiters_state v
      (snapshot [true] [Ret tt; report_as "a" (0, nil); report_as "b" (v, nil)] [] t)
| ta_b6 t :
    two_awaiters_state v
      (snapshot [true] [Ret tt; report_as "a" (0, nil); Ret tt] [("b", (v, nil))] t)
| ta_b7 t :
    two_awaiters_state v
      (snapshot [true] [Ret tt; Ret tt; report_as "b" (v, nil)] [("a", (0, nil))] t)
| ta_b8 t :
    two_awaiters_state v
      (snapshot [true] [Ret tt; Ret tt; Ret tt] [("b", (v, nil)); ("a", (0, nil))] t)
| ta_b9 t :
    two_awaiters_state v
      (snapshot [true] [Ret tt; Ret tt; Ret tt] [("a", (0, nil)); ("b", (v, nil))] t).

(** [future := NewFuture[int](); go resolver(future);
     report(future.Await(context.Background()))]: the package's
    [TestResolve], [TestValue] and [TestError], the resolver being
    [future.Resolve(42, nil)], [future.Value(42)] or
    [future.Error(expectedErr)]; and the states the program can be in when
    the resolver sends the payload [p], whatever the schedule. *)
Definition go_resolver_then_await (resolver : Future -> prog unit) : prog unit :=
  future <- NewFuture ;;
  Go (resolver future) (r <- Ctx.Await future Background ;; report_as "main" r).

Inductive go_resolver_state (p : payload Z) : state -> Prop :=
| gr_start t :
    go_resolver_state p
      (snapshot [] [go_resolver_then_await (fun f => sendAndClose f p)] [] t)
| gr_made t :
    go_resolver_state p
      (snapshot [false] [Go (sendAndClose 0%nat p) chain_awaits] [] t)
| gr_both t :
    go_resolver_state p
      (snapshot [false] [chain_awaits; sendAndClose 0%nat p] [] t)
| gr_handed t :
    go_resolver_state p
      (snapshot [false] [report_as "main" (val p, err p); Close 0%nat (Ret tt)] [] t)
| gr_reported t :
    go_resolver_state p
      (snapshot [false] [Ret tt; Close 0%nat (Ret tt)] [("main", (val p, err p))] t)
| gr_closed t :
    go_resolver_state p
      (snapshot [true] [report_as "main" (val p, err p); Ret tt] [] t)
| gr_done t :
    go_resolver_state p
      (snapshot [true] [Ret tt; Ret tt] [("main", (val p, err p))] t).

End Client.

(** * Properties *)

Section Theory.

Context {T : Type} `{GoType T} {O : Type}.
#[local] Abbreviation prog := (prog T O).
#[local] Abbreviation state := (state T O).
#[local] Abbreviation payload := (payload T).

Implicit Types (st : state) (f : Future) (i j : nat) (p : payload)
               (v : T) (e : error) (c : choice) (sched : list choice).

(** ** Frame lemmas of the runtime *)

Lemma step_alive {c st st'} : step c st = Some st' -> alive st.
Proof. unfold step, alive. destruct (panicked st); [discriminate | done]. Qed.

Lemma set_thread_lookup st i (q q0 : prog unit) :
  threads st !! i = Some q0 -> threads (set_thread i q st) !! i = Some q.
Proof.
  intros Hi. simpl. apply list_lookup_insert_eq. by eapply lookup_lt_Some.
Qed.

Lemma set_thread_lookup_ne st i j (q : prog unit) :
  i <> j -> threads (set_thread i q st) !! j = threads st !! j.
Proof. intros Hne. simpl. by apply list_lookup_insert_ne. Qed.

(** A closed channel stays closed. *)
Lemma step_closed_mono c st st' f :
  step c st = Some st' -> is_closed st f -> is_closed st' f.
Proof.
  unfold step, is_closed. destruct (panicked st); [discriminate |].
  destruct c as [i | i j | j | | cx reason]; intros Hs Hf.
  - unfold run_thread in Hs. destruct (threads st !! i) as [q |]; [| discriminate].
    destruct q; simplify_eq/=; try done;
      repeat (case_match; simplify_eq/=); try done.
    + apply lookup_app_l_Some. done.
    + destruct (decide (f0 = f)) as [-> | Hne]; [congruence |].
      by rewrite list_lookup_insert_ne.
  - unfold sync in Hs. repeat (case_match; simplify_eq/=); done.
  - unfold alt in Hs. repeat (case_match; simplify_eq/=); done.
  - by simplify_eq/=.
  - unfold cancel in Hs. repeat (case_match; simplify_eq/=); done.
Qed.

Lemma run_closed_mono sched st st' f :
  run sched st = Some st' -> is_closed st f -> is_closed st' f.
Proof.
  revert st. induction sched as [| c sched IH]; intros st; simpl.
  - by intros [= <-].
  - destruct (step c st) as [st1 |] eqn:Hs; [| discriminate].
    intros Hr Hf. eapply IH; [done |]. by eapply step_closed_mono.
Qed.

(** The clock never goes back. *)
Lemma step_now_mono c st st' : step c st = Some st' -> now st <= now st'.
Proof.
  unfold step. destruct (panicked st); [discriminate |].
  destruct c as [i | i j | j | | cx reason]; intros Hs.
  - unfold run_thread in Hs. destruct (threads st !! i) as [q |]; [| discriminate].
    destruct q; simplify_eq/=; try done;
      repeat (case_match; simplify_eq/=); done.
  - unfold sync in Hs. repeat (case_match; simplify_eq/=); done.
  - unfold alt in Hs. repeat (case_match; simplify_eq/=); done.
  - simplify_eq/=. lia.
  - unfold cancel in Hs. repeat (case_match; simplify_eq/=); done.
Qed.

Lemma run_now_mono sched st st' : run sched st = Some st' -> now st <= now st'.
Proof.
  revert st. induction sched as [| c sched IH]; intros st; simpl.
  - by intros [= <-].
  - destruct (step c st) as [st1 |] eqn:Hs; [| discriminate].
    intros Hr. apply step_now_mono in Hs. apply IH in Hr. lia.
Qed.

(** ** One step of one goroutine *)

Lemma step_sync st i j f p (k q : prog unit) (kr : payload -> prog unit) :
  alive st -> is_open st f ->
  at_thread st i (Send f p k) -> at_thread st j q -> recv_cont q f = Some kr ->
  step (Sync i j) st = Some (set_thread j (kr p) (set_thread i k st)).
Proof.
  unfold alive, is_open, at_thread, step, sync.
  intros -> Hf Hi Hj Hq. by rewrite Hi, Hf, Hj, Hq.
Qed.

(** The sender and the receiver of a rendezvous are two goroutines. *)
Lemma sender_not_receiver st i j f p (k q : prog unit) kr :
  at_thread st i (Send f p k) -> at_thread st j q -> recv_cont q f = Some kr ->
  i <> j.
Proof.
  unfold at_thread. intros Hi Hj Hq ->. rewrite Hi in Hj.
  injection Hj as <-. discriminate.
Qed.

Lemma step_sync_threads st i j f p (k q : prog unit) kr :
  at_thread st i (Send f p k) -> at_thread st j q -> recv_cont q f = Some kr ->
  let st' := set_thread j (kr p) (set_thread i k st) in
  at_thread st' j (kr p) /\ at_thread st' i k /\
  chans st' = chans st /\ log st' = log st /\ panicked st' = panicked st.
Proof.
  intros Hi Hj Hq st'.
  assert (i <> j) as Hne by eauto using sender_not_receiver.
  unfold at_thread in *. repeat split.
  - simpl. apply list_lookup_insert_eq. rewrite length_insert.
    by eapply lookup_lt_Some.
  - simpl. rewrite list_lookup_insert_ne by done.
    apply list_lookup_insert_eq. by eapply lookup_lt_Some.
Qed.

Lemma step_recv_closed st j f (q : prog unit) kr :
  alive st -> is_closed st f -> at_thread st j q -> recv_cont q f = Some kr ->
  step (Run j) st = Some (set_thread j (kr zero_payload) st).
Proof.
  unfold alive, is_closed, at_thread, step, run_thread.
  intros -> Hf Hj Hq. rewrite Hj.
  destruct q; simpl in Hq; try discriminate;
    case_decide; simplify_eq; by rewrite Hf.
Qed.

Lemma step_close st i f (k : prog unit) :
  alive st -> is_open st f -> at_thread st i (Close f k) ->
  step (Run i) st = Some (set_thread i k (set_chans (<[f:=true]> (chans st)) st)).
Proof.
  unfold alive, is_open, at_thread, step, run_thread.
  intros -> Hf Hi. by rewrite Hi, Hf.
Qed.

Lemma closed_after_close st f :
  is_open st f -> is_closed (set_chans (<[f:=true]> (chans st)) st) f.
Proof.
  unfold is_open, is_closed. intros Hf. simpl.
  apply list_lookup_insert_eq. by eapply lookup_lt_Some.
Qed.

(** A send on a closed channel panics; the value is handed to nobody. *)
Lemma step_send_closed st i f p (k : prog unit) :
  alive st -> is_closed st f -> at_thread st i (Send f p k) ->
  step (Run i) st = Some (raise SendOnClosedChannel st) /\
  forall j, step (Sync i j) st = None.
Proof.
  unfold alive, is_closed, at_thread, step, run_thread, sync.
  intros -> Hf Hi. by rewrite Hi, Hf.
Qed.

(** A send on an open channel waits for a receiver. *)
Lemma step_send_open st i f p (k : prog unit) :
  is_open st f -> at_thread st i (Send f p k) ->
  step (Run i) st = None /\ step (Alt i) st = None /\
  (forall j, step (Sync j i) st = None) /\
  (forall j, step (Sync i j) st <> None ->
     exists q kr, at_thread st j q /\ recv_cont q f = Some kr).
Proof.
  unfold is_open, at_thread, step, run_thread, sync, alt.
  intros Hf Hi. destruct (panicked st); [done |].
  rewrite Hi, Hf. repeat split; try done.
  - intros j. repeat case_match; simplify_eq/=; done.
  - intros j. destruct (threads st !! j) as [q |]; [| done].
    destruct (recv_cont q f) as [kr |] eqn:Hq; [eauto | done].
Qed.

(** ** [sendAndClose] against a receiver: one hand-off, then the zero value *)

Lemma sendAndClose_handoff p f i j (k q : prog unit) (kr : payload -> prog unit) st :
  alive st -> is_open st f ->
  at_thread st i (_ <- sendAndClose f p ;; k) ->
  at_thread st j q -> recv_cont q f = Some kr ->
  exists st1 st2,
    step (Sync i j) st = Some st1 /\
    at_thread st1 j (kr p) /\
    (forall j', step (Sync i j') st1 = None) /\
    step (Run i) st1 = Some st2 /\
    at_thread st2 i k /\ at_thread st2 j (kr p) /\ is_closed st2 f /\
    alive st2 /\
    forall sched st3, run sched st2 = Some st3 -> alive st3 ->
      forall j' (q' : prog unit) kr',
        at_thread st3 j' q' -> recv_cont q' f = Some kr' ->
        exists st4,
          step (Run j') st3 = Some st4 /\
          at_thread st4 j' (kr' zero_payload) /\ is_closed st4 f.
Proof.
  intros Hal Hf Hi Hj Hq. simpl in Hi.
  pose proof (step_sync Hal Hf Hi Hj Hq) as Hs.
  destruct (step_sync_threads Hi Hj Hq) as (Hj1 & Hi1 & Hc1 & _ & Hp1).
  set (st1 := set_thread j (kr p) (set_thread i (Close f k) st)) in *.
  assert (alive st1) as Hal1 by exact Hal.
  assert (is_open st1 f) as Hf1 by exact Hf.
  pose proof (step_close Hal1 Hf1 Hi1) as Hs1.
  set (st2 := set_thread i k (set_chans (<[f:=true]> (chans st1)) st1)) in *.
  assert (i <> j) as Hne by (by eapply sender_not_receiver).
  exists st1, st2. split_and!; try done.
  - intros j'. unfold step, sync. rewrite Hal1. unfold at_thread in Hi1.
    by rewrite Hi1.
  - by eapply set_thread_lookup.
  - unfold at_thread. subst st2. rewrite set_thread_lookup_ne by done. done.
  - by apply closed_after_close.
  - intros sched st3 Hr Hal3 j' q' kr' Hj' Hq'.
    assert (is_closed st3 f) as Hf3.
    { eapply run_closed_mono; [done |]. by apply closed_after_close. }
    pose proof (step_recv_closed Hal3 Hf3 Hj' Hq') as Hs3.
    eexists. split; [done |]. split; [by eapply set_thread_lookup | done].
Qed.

Lemma recv_cont_Await f (k' : T * error -> prog unit) :
  recv_cont (r <- Poll.Await f ;; k' r) f = Some (fun p => k' (val p, err p)).
Proof. simpl. by rewrite decide_True. Qed.

(** ** Resolution and await *)

(** C1 (as the code has it): [f.Value(v)] completes by handing
    [(v, nil)] to one [Await], the one that takes the send; the resolver
    offers the value to no second goroutine and closes the channel; every
    [Await] that runs after the resolution has completed, in any number
    and from any goroutine, observes one and the same outcome, the zero
    payload [(zero, nil)] of the closed channel. *)
Theorem Value_then_Await v f i j (k : prog unit) (k' : T * error -> prog unit) st :
  alive st -> is_open st f ->
  at_thread st i (_ <- Value f v ;; k) ->
  at_thread st j (r <- Poll.Await f ;; k' r) ->
  exists st1 st2,
    step (Sync i j) st = Some st1 /\
    at_thread st1 j (k' (v, nil)) /\
    (forall j', step (Sync i j') st1 = None) /\
    step (Run i) st1 = Some st2 /\
    at_thread st2 i k /\ at_thread st2 j (k' (v, nil)) /\ is_closed st2 f /\
    alive st2 /\
    forall sched st3, run sched st2 = Some st3 -> alive st3 ->
      forall j' (k'' : T * error -> prog unit),
        at_thread st3 j' (r <- Poll.Await f ;; k'' r) ->
        exists st4,
          step (Run j') st3 = Some st4 /\
          at_thread st4 j' (k'' (zeroValue, nil)) /\ is_closed st4 f.
Proof.
  intros Hal Hf Hi Hj.
  destruct (sendAndClose_handoff (p := payload_lit (Some v) None)
              Hal Hf Hi Hj (recv_cont_Await f k'))
    as (st1 & st2 & ? & ? & ? & ? & ? & ? & ? & ? & Hlater).
  exists st1, st2. split_and!; try done.
  intros sched st3 Hr Hal3 j' k'' Hj'.
  exact (Hlater sched st3 Hr Hal3 j' _ _ Hj' (recv_cont_Await f k'')).
Qed.

(** C8 (as the code has it): [f.Error(e)] completes by handing
    [(zero, e)] to the one [Await] that takes the send; an [Await] that
    runs after the resolution has completed observes the zero payload of
    the closed channel. *)
Theorem Error_then_Await e f i j (k : prog unit) (k' : T * error -> prog unit) st :
  alive st -> is_open st f ->
  at_thread st i (_ <- Error f e ;; k) ->
  at_thread st j (r <- Poll.Await f ;; k' r) ->
  exists st1 st2,
    step (Sync i j) st = Some st1 /\
    at_thread st1 j (k' (zeroValue, e)) /\
    (forall j', step (Sync i j') st1 = None) /\
    step (Run i) st1 = Some st2 /\
    at_thread st2 i k /\ at_thread st2 j (k' (zeroValue, e)) /\ is_closed st2 f /\
    alive st2 /\
    forall sched st3, run sched st2 = Some st3 -> alive st3 ->
      forall j' (k'' : T * error -> prog unit),
        at_thread st3 j' (r <- Poll.Await f ;; k'' r) ->
        exists st4,
          step (Run j') st3 = Some st4 /\
          at_thread st4 j' (k'' (zeroValue, nil)) /\ is_closed st4 f.
Proof.
  intros Hal Hf Hi Hj.
  destruct (sendAndClose_handoff (p := payload_lit None (Some e))
              Hal Hf Hi Hj (recv_cont_Await f k'))
    as (st1 & st2 & ? & ? & ? & ? & ? & ? & ? & ? & Hlater).
  exists st1, st2. split_and!; try done.
  intros sched st3 Hr Hal3 j' k'' Hj'.
  exact (Hlater sched st3 Hr Hal3 j' _ _ Hj' (recv_cont_Await f k'')).
Qed.

(** C2: once a first [Resolve] has completed (its value handed to a
    receiver of the future, whichever kind of await that is, and the
    channel closed), a second [Resolve] on the same future panics on its
    send, whatever ran in between: the second value reaches no goroutine,
    the panic leaves channels, goroutines and reports as the first
    resolution left them, and the program runs no further. *)
Theorem second_Resolve_panics v1 e1 v2 e2 f i0 j (k0 q : prog unit)
    (kr : payload -> prog unit) st :
  alive st -> is_open st f ->
  at_thread st i0 (_ <- Resolve f v1 e1 ;; k0) ->
  at_thread st j q -> recv_cont q f = Some kr ->
  exists st1 st2,
    step (Sync i0 j) st = Some st1 /\ step (Run i0) st1 = Some st2 /\
    at_thread st2 i0 k0 /\ at_thread st2 j (kr {| val := v1; err := e1 |}) /\
    alive st2 /\
    forall sched st3, run sched st2 = Some st3 -> alive st3 ->
      forall i (k : prog unit), at_thread st3 i (_ <- Resolve f v2 e2 ;; k) ->
        let st4 := raise SendOnClosedChannel st3 in
        step (Run i) st3 = Some st4 /\
        (forall j', step (Sync i j') st3 = None) /\
        panicked st4 = Some SendOnClosedChannel /\
        chans st4 = chans st3 /\ threads st4 = threads st3 /\ log st4 = log st3 /\
        (forall c, step c st4 = None).
Proof.
  intros Hal Hf Hi Hj Hq.
  destruct (sendAndClose_handoff (p := payload_lit (Some v1) (Some e1)) Hal Hf Hi Hj Hq)
    as (st1 & st2 & Hs1 & _ & _ & Hs2 & Hi2 & Hj2 & Hc2 & Hal2 & _).
  exists st1, st2. split_and!; try done.
  intros sched st3 Hr Hal3 i k Hi3 st4.
  assert (is_closed st3 f) as Hc3 by eauto using run_closed_mono.
  simpl in Hi3.
  destruct (step_send_closed Hal3 Hc3 Hi3) as [Hrun Hsync].
  split_and!; done.
Qed.

(** X2: two resolves that race.  When a second [Resolve] has started
    before the first has closed the channel, and two goroutines await,
    both payloads can be handed over, one to each awaiter, before the
    program panics on the second [close]. *)
Theorem racing_Resolves_both_observed v1 e1 v2 e2 f i1 i2 j1 j2
    (k1 k2 : prog unit) (k1' k2' : T * error -> prog unit) st :
  alive st -> is_open st f ->
  at_thread st i1 (_ <- Resolve f v1 e1 ;; k1) ->
  at_thread st i2 (_ <- Resolve f v2 e2 ;; k2) ->
  at_thread st j1 (r <- Poll.Await f ;; k1' r) ->
  at_thread st j2 (r <- Poll.Await f ;; k2' r) ->
  i1 <> i2 -> j1 <> j2 ->
  exists st',
    run [Sync i1 j1; Sync i2 j2; Run i1; Run i2] st = Some st' /\
    at_thread st' j1 (k1' (v1, e1)) /\ at_thread st' j2 (k2' (v2, e2)) /\
    panicked st' = Some CloseOfClosedChannel.
Proof.
  intros Hal Hf Hi1 Hi2 Hj1 Hj2 Hi Hj. simpl in Hi1, Hi2, Hj1, Hj2.
  assert (forall j k', recv_cont (Recv f (fun p => k' (val p, err p)) : prog unit) f
                       = Some (fun p => k' (val p, err p))) as Hrc
    by (intros; simpl; by rewrite decide_True).
  assert (i1 <> j1) as N11 by (eapply sender_not_receiver; eauto).
  assert (i1 <> j2) as N12 by (eapply sender_not_receiver; eauto).
  assert (i2 <> j1) as N21 by (eapply sender_not_receiver; eauto).
  assert (i2 <> j2) as N22 by (eapply sender_not_receiver; eauto).
  assert (i1 < length (threads st)) as L1 by (by eapply lookup_lt_Some).
  assert (i2 < length (threads st)) as L2 by (by eapply lookup_lt_Some).
  assert (j1 < length (threads st)) as L3 by (by eapply lookup_lt_Some).
  assert (j2 < length (threads st)) as L4 by (by eapply lookup_lt_Some).
  set (st1 := set_thread j1 (k1' (v1, e1)) (set_thread i1 (Close f k1) st)).
  set (st2 := set_thread j2 (k2' (v2, e2)) (set_thread i2 (Close f k2) st1)).
  set (st3 := set_thread i1 k1 (set_chans (<[f:=true]> (chans st2)) st2)).
  assert (step (Sync i1 j1) st = Some st1) as S1.
  { exact (step_sync (kr := fun p => k1' (val p, err p)) Hal Hf Hi1 Hj1 (Hrc 0 k1')). }
  assert (step (Sync i2 j2) st1 = Some st2) as S2.
  { assert (at_thread st1 i2 (Send f (payload_lit (Some v2) (Some e2)) (Close f k2))) as Hi2'
      by (unfold at_thread; simpl; by rewrite !list_lookup_insert_ne).
    assert (at_thread st1 j2 (Recv f (fun p => k2' (val p, err p)))) as Hj2'
      by (unfold at_thread; simpl; by rewrite !list_lookup_insert_ne).
    exact (step_sync (st := st1) (kr := fun p => k2' (val p, err p))
             Hal Hf Hi2' Hj2' (Hrc 0 k2')). }
  assert (step (Run i1) st2 = Some st3) as S3.
  { apply (step_close (st := st2) Hal Hf).
    unfold at_thread. simpl. rewrite !list_lookup_insert_ne by done.
    by apply list_lookup_insert_eq. }
  assert (step (Run i2) st3 = Some (raise CloseOfClosedChannel st3)) as S4.
  { unfold step, run_thread. change (panicked st3) with (panicked st).
    unfold alive in Hal. rewrite Hal. simpl threads.
    rewrite list_lookup_insert_ne by done.
    rewrite list_lookup_insert_ne by done.
    rewrite list_lookup_insert_eq by (by rewrite !length_insert).
    simpl chans. rewrite list_lookup_insert_eq; [done |]. by eapply lookup_lt_Some. }
  exists (raise CloseOfClosedChannel st3). cbn [run]. rewrite S1, S2, S3, S4.
  split_and!; try done.
  - unfold at_thread. simpl. rewrite !list_lookup_insert_ne by done.
    apply list_lookup_insert_eq. by rewrite length_insert.
  - unfold at_thread. simpl. rewrite list_lookup_insert_ne by done.
    apply list_lookup_insert_eq. by rewrite !length_insert.
Qed.

(** C9: [Value(v)] is [Resolve(v, nil)] and [Error(e)] is
    [Resolve(zero, e)]: the same goroutine body, hence the same runs of
    every program that calls one or the other, and the same payload for
    the awaiter that takes the send. *)
Theorem Value_Error_are_Resolve v e f :
  (Value f v : prog unit) = Resolve f v nil /\
  (Error f e : prog unit) = Resolve f zeroValue e /\
  (forall (k : prog unit) i st sched,
     run sched (set_thread i (_ <- Value f v ;; k) st) =
     run sched (set_thread i (_ <- Resolve f v nil ;; k) st)) /\
  (forall (k : prog unit) i st sched,
     run sched (set_thread i (_ <- Error f e ;; k) st) =
     run sched (set_thread i (_ <- Resolve f zeroValue e ;; k) st)) /\
  (forall (k : prog unit) (kr : payload -> prog unit) i j st,
     alive st -> is_open st f ->
     at_thread st j (Recv f kr) ->
     (at_thread st i (_ <- Value f v ;; k) \/ at_thread st i (_ <- Resolve f v nil ;; k) ->
      step (Sync i j) st =
        Some (set_thread j (kr {| val := v; err := nil |}) (set_thread i (Close f k) st))) /\
     (at_thread st i (_ <- Error f e ;; k) \/ at_thread st i (_ <- Resolve f zeroValue e ;; k) ->
      step (Sync i j) st =
        Some (set_thread j (kr {| val := zeroValue; err := e |}) (set_thread i (Close f k) st)))).
Proof.
  split_and!; try reflexivity.
  intros k kr i j st Hal Hf Hj. split.
  - intros Hi. assert (at_thread st i (Send f {| val := v; err := nil |} (Close f k))) as Hi'
      by (destruct Hi as [Hi | Hi]; exact Hi).
    apply (step_sync (kr := kr) Hal Hf Hi' Hj). simpl. by rewrite decide_True.
  - intros Hi. assert (at_thread st i (Send f {| val := zeroValue; err := e |} (Close f k))) as Hi'
      by (destruct Hi as [Hi | Hi]; exact Hi).
    apply (step_sync (kr := kr) Hal Hf Hi' Hj). simpl. by rewrite decide_True.
Qed.

(** A rendezvous in a state that differs from [st] by the receiver [q] put
    in place of goroutine [j]. *)
Lemma step_sync_over st st0 i j f p (ks q : prog unit) (kr : payload -> prog unit) :
  alive st -> is_open st f ->
  at_thread st i (Send f p ks) -> j < length (threads st) -> i <> j ->
  recv_cont q f = Some kr ->
  threads st0 = <[j:=q]> (threads st) -> chans st0 = chans st ->
  log st0 = log st -> panicked st0 = panicked st ->
  exists s, step (Sync i j) st0 = Some s /\
    threads s = threads (set_thread j (kr p) (set_thread i ks st)) /\
    chans s = chans st /\ log s = log st.
Proof.
  intros Hal Hf Hi Hlt Hne Hq Ht Hc Hl Hp.
  assert (alive st0) as Hal0 by (unfold alive in *; congruence).
  assert (is_open st0 f) as Hf0 by (unfold is_open in *; congruence).
  assert (at_thread st0 i (Send f p ks)) as Hi0.
  { unfold at_thread in *. rewrite Ht. by rewrite list_lookup_insert_ne. }
  assert (at_thread st0 j q) as Hj0.
  { unfold at_thread. rewrite Ht. by apply list_lookup_insert_eq. }
  eexists. split; [by apply (step_sync (kr := kr) Hal0 Hf0 Hi0 Hj0) |].
  split_and!; try done. simpl. rewrite Ht.
  rewrite (list_insert_insert_ne _ i j) by done.
  by rewrite list_insert_insert_eq.
Qed.

(** C10: on the resolution path the two variants agree.  Against a
    resolver offering [(v, e)], the context variant's [Await] (under
    [context.Background()], which never fires), the blocking [Await] and
    [AwaitWithTimeout] through its receive case take the same hand-off,
    with the same goroutines, channels and reports as result, and return
    the same pair [(v, e)] (the last with the flag [true]); and while the
    channel is open the hand-off is the only way the first two return. *)
Theorem Await_variants_agree v e f i j (ks : prog unit) (k : T * error -> prog unit)
    (t : duration) st :
  alive st -> is_open st f ->
  at_thread st i (Send f {| val := v; err := e |} ks) ->
  j < length (threads st) -> i <> j ->
  let st_ctx := set_thread j (r <- Ctx.Await f Background ;; k r) st in
  let st_poll := set_thread j (r <- Poll.Await f ;; k r) st in
  let st_tmo := set_thread j (r <- Poll.AwaitWithTimeout f t ;;
                              if snd r then k (fst r) else Ret tt) st in
  let st' := set_thread j (k (v, e)) (set_thread i ks st) in
  (exists s1, step (Sync i j) st_ctx = Some s1 /\
     threads s1 = threads st' /\ chans s1 = chans st' /\ log s1 = log st') /\
  (exists s2, step (Sync i j) st_poll = Some s2 /\
     threads s2 = threads st' /\ chans s2 = chans st' /\ log s2 = log st') /\
  (exists s0 s3, step (Run j) st_tmo = Some s0 /\ step (Sync i j) s0 = Some s3 /\
     threads s3 = threads st' /\ chans s3 = chans st' /\ log s3 = log st') /\
  step (Run j) st_ctx = None /\ step (Alt j) st_ctx = None /\
  step (Run j) st_poll = None /\ step (Alt j) st_poll = None.
Proof.
  intros Hal Hf Hi Hlt Hne st_ctx st_poll st_tmo st'.
  subst st_ctx st_poll st_tmo st'.
  split_and!.
  - eapply step_sync_over with (st := st) (p := {| val := v; err := e |})
                               (kr := fun p => k (val p, err p));
      try done. simpl. by rewrite decide_True.
  - eapply step_sync_over with (st := st) (p := {| val := v; err := e |})
                               (kr := fun p => k (val p, err p));
      try done. simpl. by rewrite decide_True.
  - set (sel := SelectTimer f (now st + t) (fun p => k (val p, err p)) (Ret tt)).
    exists (set_thread j sel
              (set_thread j (r <- Poll.AwaitWithTimeout f t ;;
                             if snd r then k (fst r) else Ret tt) st)).
    edestruct step_sync_over
      with (st := st) (q := sel) (p := {| val := v; err := e |})
           (kr := fun p => k (val p, err p))
           (st0 := set_thread j sel
                     (set_thread j (r <- Poll.AwaitWithTimeout f t ;;
                                    if snd r then k (fst r) else Ret tt) st))
      as (s3 & Hs3 & ?); try done.
    { simpl. by rewrite decide_True. }
    { simpl. by rewrite list_insert_insert_eq. }
    exists s3. split; [| done].
    unfold alive, step, run_thread in *. simpl panicked. rewrite Hal.
    simpl threads. rewrite list_lookup_insert_eq by done. done.
  - unfold alive, is_open, step, run_thread in *. simpl panicked. rewrite Hal.
    simpl threads. rewrite list_lookup_insert_eq by done. simpl. by rewrite Hf.
  - unfold alive, is_open, step, alt in *. simpl panicked. rewrite Hal.
    simpl threads. by rewrite list_lookup_insert_eq by done.
  - unfold alive, is_open, step, run_thread in *. simpl panicked. rewrite Hal.
    simpl threads. rewrite list_lookup_insert_eq by done. simpl. by rewrite Hf.
  - unfold alive, is_open, step, alt in *. simpl panicked. rewrite Hal.
    simpl threads. by rewrite list_lookup_insert_eq by done.
Qed.

(** ** Goroutines a step does not involve *)

Lemma step_frame c st st' n (q : prog unit) :
  step c st = Some st' -> ~ involves c n -> at_thread st n q -> at_thread st' n q.
Proof.
  unfold step, at_thread. destruct (panicked st); [discriminate |].
  destruct c as [i | i j | j | | cx reason]; simpl; intros Hs Hn Hq.
  - unfold run_thread in Hs. destruct (threads st !! i) as [q0 |]; [| discriminate].
    destruct q0; simplify_eq/=; repeat (case_match; simplify_eq/=);
      rewrite ?list_lookup_insert_ne by done; try done.
    apply lookup_app_l_Some. by rewrite list_lookup_insert_ne.
  - unfold sync in Hs. repeat (case_match; simplify_eq/=).
    rewrite !list_lookup_insert_ne by tauto. done.
  - unfold alt in Hs. repeat (case_match; simplify_eq/=);
      by rewrite list_lookup_insert_ne.
  - by simplify_eq/=.
  - unfold cancel in Hs. repeat (case_match; simplify_eq/=); done.
Qed.

Lemma sync_inv i j st st' :
  step (Sync i j) st = Some st' ->
  exists f p (k q : prog unit) kr,
    at_thread st i (Send f p k) /\ is_open st f /\
    at_thread st j q /\ recv_cont q f = Some kr /\
    st' = set_thread j (kr p) (set_thread i k st).
Proof.
  unfold step, sync, at_thread, is_open. destruct (panicked st); [discriminate |].
  intros Hs. destruct (threads st !! i) as [[] |]; try discriminate.
  destruct (chans st !! f) as [[] |] eqn:Hf; try discriminate.
  destruct (threads st !! j) as [q |]; try discriminate.
  destruct (recv_cont q f) as [kr |] eqn:Hq; try discriminate.
  injection Hs as <-. by repeat eexists.
Qed.

(** A goroutine receiving on an unresolved future finds no sender. *)
Lemma unresolved_no_sync st j f (q : prog unit) :
  unresolved st f -> at_thread st j q ->
  (forall f' kr, recv_cont q f' = Some kr -> f' = f) ->
  forall s, step (Sync s j) st = None.
Proof.
  intros [_ Hno] Hj Hq s. destruct (step (Sync s j) st) as [st' |] eqn:Hs; [| done].
  apply sync_inv in Hs as (f' & p & k & q' & kr & Hi & _ & Hj' & Hr & _).
  unfold at_thread in *. rewrite Hj in Hj'. injection Hj' as <-.
  apply Hq in Hr as ->. by apply Hno in Hi.
Qed.

Lemma unresolved_set_thread st i f (q : prog unit) :
  unresolved st f -> (forall p k, q <> Send f p k) ->
  unresolved (set_thread i q st) f.
Proof.
  intros [Hf Hno] Hq. split; [exact Hf |].
  intros i' p k. simpl. rewrite list_lookup_insert_Some.
  intros [(-> & -> & _) | [_ Hi']]; [by eapply Hq | by eapply Hno].
Qed.

(** ** Poll: [select] against a timer of duration zero *)

Lemma timer0_select_unresolved st i f (kr : payload -> prog unit) (kf : prog unit) :
  alive st -> unresolved st f ->
  at_thread st i (TimeAfter 0 (fun tm => SelectTimer f tm kr kf)) ->
  exists st1 st2,
    step (Run i) st = Some st1 /\
    step (Run i) st1 = None /\ (forall s, step (Sync s i) st1 = None) /\
    step (Alt i) st1 = Some st2 /\
    at_thread st2 i kf /\ chans st2 = chans st /\ now st2 = now st /\
    log st2 = log st /\ forall n, n <> i -> threads st2 !! n = threads st !! n.
Proof.
  intros Hal Hun Hi.
  set (q1 := SelectTimer f (now st + 0) kr kf).
  set (st1 := set_thread i q1 st).
  assert (step (Run i) st = Some st1) as Hs0.
  { unfold alive, at_thread, step, run_thread in *. by rewrite Hal, Hi. }
  assert (at_thread st1 i q1) as Hi1 by (by eapply set_thread_lookup).
  assert (unresolved st1 f) as Hun1 by (by apply unresolved_set_thread).
  exists st1, (set_thread i kf st1). split_and!; try done.
  - destruct Hun1 as [Hf1 _].
    unfold alive, at_thread, is_open, step, run_thread in *.
    change (panicked st1) with (panicked st). rewrite Hal, Hi1. simpl.
    change (chans st1) with (chans st) in Hf1. by rewrite Hf1.
  - apply (unresolved_no_sync Hun1 Hi1). simpl. intros f' kr'.
    by case_decide.
  - unfold alive, at_thread, step, alt in *.
    change (panicked st1) with (panicked st). rewrite Hal, Hi1.
    unfold q1. change (now st1) with (now st). rewrite decide_True by lia. done.
  - by eapply set_thread_lookup.
  - intros n Hn. simpl. by rewrite !list_lookup_insert_ne.
Qed.


(** X1: a future just made by [NewFuture] is unresolved, and an immediate
    [Get] on it returns [Present = false], no value and no error (no
    goroutine can refer to a channel before it is made). *)
Theorem NewFuture_then_Get st i (k : Future -> Optional T -> prog unit) :
  alive st ->
  at_thread st i (f <- NewFuture ;; o <- Poll.Get f ;; k f o) ->
  (forall n p (q : prog unit), threads st !! n <> Some (Send (length (chans st)) p q)) ->
  let f := length (chans st) in
  exists st1 st2 st3,
    step (Run i) st = Some st1 /\
    unresolved st1 f /\ at_thread st1 i (o <- Poll.Get f ;; k f o) /\
    step (Run i) st1 = Some st2 /\
    step (Run i) st2 = None /\ (forall s, step (Sync s i) st2 = None) /\
    step (Alt i) st2 = Some st3 /\
    at_thread st3 i (k f {| Optional_Present := false;
                            Optional_Value := zeroValue;
                            Optional_Err := nil |}).
Proof.
  intros Hal Hi Hfresh f. simpl in Hi.
  set (q1 := o <- Poll.Get f ;; k f o).
  set (st1 := set_thread i q1 (set_chans (chans st ++ [false]) st)).
  assert (step (Run i) st = Some st1) as Hs0.
  { unfold alive, at_thread, step, run_thread in *. by rewrite Hal, Hi. }
  assert (at_thread st1 i q1) as Hi1 by (by eapply set_thread_lookup).
  assert (unresolved st1 f) as Hun1.
  { split.
    - unfold is_open. simpl. by apply list_lookup_middle.
    - intros n p q. simpl. rewrite list_lookup_insert_Some.
      intros [(_ & Hq & _) | [_ Hn]]; [discriminate | by eapply Hfresh]. }
  destruct (timer0_select_unresolved (st := st1) Hal Hun1 Hi1)
    as (st2 & st3 & ? & ? & ? & ? & ? & _).
  exists st1, st2, st3. split_and!; done.
Qed.

(** ** Contexts *)

(** A context that is done stays done, with the same reason. *)
Lemma step_ctx_mono c st st' ctx reason :
  step c st = Some st' -> ctx_err st ctx = Some reason -> ctx_err st' ctx = Some reason.
Proof.
  unfold step. destruct (panicked st); [discriminate |].
  destruct c as [i | i j | j | | cx r]; intros Hs Hc.
  - unfold run_thread in Hs. destruct (threads st !! i) as [q |]; [| discriminate].
    destruct q; simplify_eq/=; repeat (case_match; simplify_eq/=); done.
  - unfold sync in Hs. repeat (case_match; simplify_eq/=); done.
  - unfold alt in Hs. repeat (case_match; simplify_eq/=); done.
  - by simplify_eq/=.
  - unfold cancel in Hs. destruct (ctxs st !! cx) as [[] |] eqn:Hcx; simplify_eq.
    destruct ctx as [| c0]; [done |]. unfold ctx_err in *. simpl.
    destruct (decide (cx = c0)) as [-> | Hne].
    + unfold error in *. rewrite Hcx in Hc. discriminate.
    + by rewrite list_lookup_insert_ne.
Qed.

Lemma run_ctx_mono sched st st' ctx reason :
  run sched st = Some st' -> ctx_err st ctx = Some reason -> ctx_err st' ctx = Some reason.
Proof.
  revert st. induction sched as [| c sched IH]; intros st; simpl.
  - by intros [= <-].
  - destruct (step c st) as [st1 |] eqn:Hs; [| discriminate].
    intros Hr Hc. eapply IH; [done |]. by eapply step_ctx_mono.
Qed.

(** ** How an awaiting goroutine moves *)

(** The step does not involve the goroutine: it stays where it is. *)
#[local] Ltac by_frame :=
  left; eapply step_frame; [eassumption | simpl; tauto | assumption].

(** Every step either leaves a goroutine where it is or moves it as
    [moves] says. *)
Lemma step_moves {st n} {q : prog unit} {c st'} :
  at_thread st n q -> step c st = Some st' ->
  at_thread st' n q \/ exists q', moves st n c q q' /\ at_thread st' n q'.
Proof.
  intros Hn Hs. pose proof (step_alive Hs) as Hal.
  assert (n < length (threads st)) as Hlt by (by eapply lookup_lt_Some).
  destruct c as [i | i j | j | | cx r]; try by_frame.
  - destruct (decide (i = n)) as [-> | Hne]; [| by_frame].
    unfold alive, at_thread, step, run_thread in *. rewrite Hal, Hn in Hs.
    destruct q; simplify_eq/=.
    + right. eexists. split; [constructor |].
      simpl. by apply list_lookup_insert_eq.
    + destruct (chans st !! f) as [[] |] eqn:Hf; simplify_eq. by left.
    + destruct (chans st !! f) as [[] |] eqn:Hf; simplify_eq; try by left.
      right. eexists. split; [by constructor |].
      simpl. by apply list_lookup_insert_eq.
    + destruct (chans st !! f) as [[] |] eqn:Hf; simplify_eq.
      right. eexists. split.
      * eapply mv_recv_closed with (f := f); [| exact Hf]. simpl. by rewrite decide_True.
      * simpl. by apply list_lookup_insert_eq.
    + destruct (chans st !! f) as [[] |] eqn:Hf; simplify_eq.
      right. eexists. split.
      * eapply mv_recv_closed with (f := f); [| exact Hf]. simpl. by rewrite decide_True.
      * simpl. by apply list_lookup_insert_eq.
    + right. eexists. split; [constructor |].
      simpl. by apply list_lookup_insert_eq.
    + right. eexists. split; [constructor |].
      simpl. by apply list_lookup_insert_eq.
    + destruct (chans st !! f) as [[] |] eqn:Hf; simplify_eq.
      right. eexists. split.
      * eapply mv_recv_closed with (f := f); [| exact Hf]. simpl. by rewrite decide_True.
      * simpl. by apply list_lookup_insert_eq.
    + right. eexists. split; [constructor |].
      simpl. apply lookup_app_l_Some. by apply list_lookup_insert_eq.
    + right. eexists. split; [constructor |].
      simpl. by apply list_lookup_insert_eq.
  - apply sync_inv in Hs as (f & p & ks & q0 & kr & Hi & Hf & Hj & Hr & ->).
    assert (i <> j) as Hij by eauto using sender_not_receiver.
    destruct (decide (j = n)) as [-> | Hjn].
    + right. unfold at_thread in Hj, Hn. rewrite Hn in Hj. injection Hj as <-.
      exists (kr p). split; [by econstructor |].
      unfold at_thread. simpl. apply list_lookup_insert_eq. by rewrite length_insert.
    + destruct (decide (i = n)) as [-> | Hin].
      * right. unfold at_thread in Hi, Hn. rewrite Hn in Hi. injection Hi as ->.
        exists ks. split; [by constructor |].
        unfold at_thread. simpl. rewrite list_lookup_insert_ne by done.
        by apply list_lookup_insert_eq.
      * left. unfold at_thread in *. simpl.
        by rewrite !list_lookup_insert_ne.
  - destruct (decide (j = n)) as [-> | Hne]; [| by_frame].
    unfold alive, at_thread, step, alt in *. rewrite Hal, Hn in Hs.
    destruct q; simplify_eq/=.
    + unfold ctx_done in Hs. destruct (ctx_err st ctx) as [reason |] eqn:Hc; simplify_eq.
      right. eexists. split; [by econstructor |].
      simpl. by apply list_lookup_insert_eq.
    + case_decide; simplify_eq.
      right. eexists. split; [by constructor |].
      simpl. by apply list_lookup_insert_eq.
Qed.

(** The blocking [Await]: by a hand-off, or by reading the zero value from
    the closed channel. *)
Lemma recv_step {st n f} {kr : payload -> prog unit} {c st'} :
  at_thread st n (Recv f kr) -> step c st = Some st' ->
  at_thread st' n (Recv f kr) \/
  (exists s p ks, c = Sync s n /\ at_thread st s (Send f p ks) /\ is_open st f /\
                  at_thread st' n (kr p)) \/
  (c = Run n /\ is_closed st f /\ at_thread st' n (kr zero_payload)).
Proof.
  intros Hn Hs. destruct (step_moves Hn Hs) as [? | (q' & Hm & Hq')]; [by left |].
  right. inversion Hm; subst; simpl in *; case_decide; simplify_eq.
  - left. eauto 10.
  - right. done.
Qed.

(** The context variant's [Await]: by a hand-off, by reading the zero
    value from the closed channel, or by the [ctx.Done()] case. *)
Lemma select_ctx_step {st n f ctx} {kr : payload -> prog unit} {kd : prog unit} {c st'} :
  at_thread st n (SelectCtx f ctx kr kd) -> step c st = Some st' ->
  at_thread st' n (SelectCtx f ctx kr kd) \/
  (exists s p ks, c = Sync s n /\ at_thread st s (Send f p ks) /\ is_open st f /\
                  at_thread st' n (kr p)) \/
  (c = Run n /\ is_closed st f /\ at_thread st' n (kr zero_payload)) \/
  (c = Alt n /\ (exists reason, ctx_err st ctx = Some reason) /\ at_thread st' n kd).
Proof.
  intros Hn Hs. destruct (step_moves Hn Hs) as [? | (q' & Hm & Hq')]; [by left |].
  right. inversion Hm; subst; simpl in *; try case_decide; simplify_eq.
  - left. eauto 10.
  - right; left. done.
  - right; right. eauto.
Qed.

(** Reading [ctx.Err()]. *)
Lemma ctx_err_step {st n ctx} {g : error -> prog unit} {c st'} :
  at_thread st n (CtxErr ctx g) -> step c st = Some st' ->
  at_thread st' n (CtxErr ctx g) \/
  (c = Run n /\ at_thread st' n (g (ctx_err st ctx))).
Proof.
  intros Hn Hs. destruct (step_moves Hn Hs) as [? | (q' & Hm & Hq')]; [by left |].
  right. inversion Hm; subst; simpl in *; simplify_eq. done.
Qed.

(** A goroutine in [sendAndClose]: the send goes on by a hand-off, the
    close by closing; a finished goroutine stays finished. *)
Lemma send_step {st n f p} {k : prog unit} {c st'} :
  at_thread st n (Send f p k) -> step c st = Some st' ->
  at_thread st' n (Send f p k) \/ at_thread st' n k.
Proof.
  intros Hn Hs. destruct (step_moves Hn Hs) as [? | (q' & Hm & Hq')]; [by left |].
  right. inversion Hm; subst; simpl in *; simplify_eq. done.
Qed.

Lemma close_step {st n f} {k : prog unit} {c st'} :
  at_thread st n (Close f k) -> step c st = Some st' ->
  at_thread st' n (Close f k) \/ at_thread st' n k.
Proof.
  intros Hn Hs. destruct (step_moves Hn Hs) as [? | (q' & Hm & Hq')]; [by left |].
  right. inversion Hm; subst; simpl in *; simplify_eq. done.
Qed.

Lemma ret_step {st n} {c st'} :
  at_thread st n (Ret tt) -> step c st = Some st' -> at_thread st' n (Ret tt).
Proof.
  intros Hn Hs. destruct (step_moves Hn Hs) as [? | (q' & Hm & Hq')]; [done |].
  inversion Hm; subst; simpl in *; simplify_eq.
Qed.

(** A goroutine running [r <- m ;; K r] runs [m] under the same
    continuation until [m] has returned. *)
Lemma bind_step {R : Type} {st n} {m : prog R} {K : R -> prog unit} {c st'} :
  at_thread st n (r <- m ;; K r) -> step c st = Some st' ->
  (exists r, m = Ret r) \/ exists m' : prog R, at_thread st' n (r <- m' ;; K r).
Proof.
  intros Hn Hs. destruct (step_moves Hn Hs) as [? | (q' & Hm & Hq')]; [eauto |].
  destruct m; simpl in Hm; [eauto | right ..];
    inversion Hm; subst; simpl in *; try case_decide; simplify_eq; eauto.
Qed.

(** ** Await under a context *)

(** C4: an [Await(ctx)] on an unresolved future waits; once the context
    is cancelled (with whatever reason) the [ctx.Done()] case is its only
    way on, and it returns [(zero, reason)], the context's own error; the
    channel heap, the reports and every other goroutine are as they were;
    and an [Await] on the same future at any later time still takes the
    value of the resolver that then offers one. *)
Theorem Await_cancelled st j f cx (reason : go_error) (k : T * error -> prog unit) :
  alive st -> unresolved st f ->
  at_thread st j (r <- Ctx.Await f (WithCancel cx) ;; k r) ->
  ctxs st !! cx = Some nil ->
  blocked st j /\
  exists st0 st1 st2,
    step (Cancel cx reason) st = Some st0 /\
    step (Run j) st0 = None /\ (forall s, step (Sync s j) st0 = None) /\
    step (Alt j) st0 = Some st1 /\
    step (Run j) st1 = Some st2 /\
    at_thread st2 j (k (zeroValue, Some reason)) /\
    chans st2 = chans st /\ log st2 = log st /\
    (forall n, n <> j -> threads st2 !! n = threads st !! n) /\
    forall sched st3, run sched st2 = Some st3 -> alive st3 -> is_open st3 f ->
      forall i j' v e (ki : prog unit) ctx' (k' : T * error -> prog unit),
        at_thread st3 i (_ <- Resolve f v e ;; ki) ->
        at_thread st3 j' (r <- Ctx.Await f ctx' ;; k' r) ->
        exists st4, step (Sync i j') st3 = Some st4 /\ at_thread st4 j' (k' (v, e)).
Proof.
  intros Hal Hun Hj Hc. simpl in Hj.
  set (kr := fun p : payload => k (val p, err p)) in *.
  set (kd := CtxErr (WithCancel cx) (fun e => k (zeroValue, e))) in *.
  assert (forall f' kr', recv_cont (SelectCtx f (WithCancel cx) kr kd) f' = Some kr' -> f' = f)
    as Hrc by (simpl; intros f' kr'; by case_decide).
  assert (Hopen := proj1 Hun). unfold alive, is_open in Hal, Hopen.
  split.
  { unfold blocked. split_and!.
    - unfold step, run_thread. unfold at_thread in Hj. by rewrite Hal, Hj, Hopen.
    - unfold step, alt. unfold at_thread in Hj. rewrite Hal, Hj.
      unfold ctx_done, ctx_err. unfold error in *. by rewrite Hc.
    - intros s. unfold step, sync. unfold at_thread in Hj. by rewrite Hal, Hj.
    - by apply (unresolved_no_sync Hun Hj). }
  set (st0 := set_ctxs (<[cx:=Some reason]> (ctxs st)) st).
  assert (ctx_err st0 (WithCancel cx) = Some reason) as Hc0.
  { unfold ctx_err. simpl. rewrite list_lookup_insert_eq; [done |].
    by eapply lookup_lt_Some. }
  assert (unresolved st0 f) as Hun0 by exact Hun.
  assert (at_thread st0 j (SelectCtx f (WithCancel cx) kr kd)) as Hj0 by exact Hj.
  set (st1 := set_thread j kd st0).
  assert (at_thread st1 j kd) as Hj1 by (by eapply set_thread_lookup).
  set (st2 := set_thread j (k (zeroValue, Some reason)) st1).
  exists st0, st1, st2. split_and!.
  - unfold step, cancel. unfold error in *. by rewrite Hal, Hc.
  - unfold step, run_thread. simpl panicked. unfold at_thread in Hj0.
    rewrite Hal, Hj0. simpl chans. by rewrite Hopen.
  - by apply (unresolved_no_sync Hun0 Hj0).
  - unfold step, alt. simpl panicked. unfold at_thread in Hj0. rewrite Hal, Hj0.
    unfold ctx_done. by rewrite Hc0.
  - unfold step, run_thread. simpl panicked. unfold at_thread in Hj1.
    rewrite Hal, Hj1. unfold kd.
    change (ctx_err st1 (WithCancel cx)) with (ctx_err st0 (WithCancel cx)).
    by rewrite Hc0.
  - by eapply set_thread_lookup.
  - done.
  - done.
  - intros n Hn. simpl. by rewrite !list_lookup_insert_ne.
  - intros sched st3 _ Hal3 Hf3 i j' v e ki ctx' k' Hi3 Hj3. simpl in Hi3, Hj3.
    pose proof (step_sync (kr := fun p => k' (val p, err p)) Hal3 Hf3 Hi3 Hj3) as Hs.
    simpl in Hs. rewrite decide_True in Hs by done. specialize (Hs eq_refl).
    eexists. split; [exact Hs |].
    eapply (step_sync_threads (kr := fun p => k' (val p, err p)) Hi3 Hj3).
    simpl. by rewrite decide_True.
Qed.

(** ** [go] statements *)

Lemma step_go {st i} {child k : prog unit} :
  alive st -> at_thread st i (Go child k) ->
  let st1 := spawn child (set_thread i k st) in
  step (Run i) st = Some st1 /\
  at_thread st1 i k /\ at_thread st1 (length (threads st)) child /\
  length (threads st1) = S (length (threads st)) /\
  chans st1 = chans st /\ log st1 = log st /\
  forall n q, n <> i -> at_thread st n q -> at_thread st1 n q.
Proof.
  intros Hal Hi st1. unfold alive, at_thread in *. split_and!; try done.
  - unfold step, run_thread. by rewrite Hal, Hi.
  - simpl. apply lookup_app_l_Some, list_lookup_insert_eq. by eapply lookup_lt_Some.
  - simpl. apply list_lookup_middle. by rewrite length_insert.
  - simpl. rewrite length_app, length_insert. simpl. lia.
  - intros n q Hn Hq. simpl. apply lookup_app_l_Some. by rewrite list_lookup_insert_ne.
Qed.

(** C5: [Then] is one [go] statement: the caller is past it after one
    step of its own, which no state of the channel can hold up, and the
    new goroutine is [consumer(f.Await(ctx))] (resp. [consumer(f.Await())]).
    That goroutine leaves its await in one of the ways [Await] returns,
    and then runs exactly the body of one call of the consumer, applied to
    the pair that [Await] returned: the payload of the resolver it met,
    [(zero, nil)] read from the closed channel, or [(zero, reason)] when
    the context was done with [reason]. *)
Theorem Then_runs_consumer st i f ctx (consumer : T -> error -> prog unit) (k : prog unit) :
  alive st ->
  let n := length (threads st) in
  let child_ctx : prog unit := r <- Ctx.Await f ctx ;; consumer (fst r) (snd r) in
  let child : prog unit := r <- Poll.Await f ;; consumer (fst r) (snd r) in
  let reading : prog unit := CtxErr ctx (fun e => consumer zeroValue e) in
  (at_thread st i (_ <- Ctx.Then f ctx consumer ;; k) ->
   exists st1, step (Run i) st = Some st1 /\
     at_thread st1 i k /\ at_thread st1 n child_ctx /\
     length (threads st1) = S n /\ chans st1 = chans st /\ log st1 = log st) /\
  (at_thread st i (_ <- Poll.Then f consumer ;; k) ->
   exists st1, step (Run i) st = Some st1 /\
     at_thread st1 i k /\ at_thread st1 n child /\
     length (threads st1) = S n /\ chans st1 = chans st /\ log st1 = log st) /\
  (forall m st2 c st3, at_thread st2 m child_ctx -> step c st2 = Some st3 ->
     at_thread st3 m child_ctx \/
     (exists s p ks, c = Sync s m /\ at_thread st2 s (Send f p ks) /\
                     at_thread st3 m (consumer (val p) (err p))) \/
     (c = Run m /\ is_closed st2 f /\ at_thread st3 m (consumer zeroValue nil)) \/
     (c = Alt m /\ at_thread st3 m reading /\
      exists reason, ctx_err st2 ctx = Some reason /\
        forall sched st4 c' st5, run sched st3 = Some st4 ->
          at_thread st4 m reading -> step c' st4 = Some st5 ->
          at_thread st5 m reading \/
          (c' = Run m /\ at_thread st5 m (consumer zeroValue (Some reason))))) /\
  (forall m st2 c st3, at_thread st2 m child -> step c st2 = Some st3 ->
     at_thread st3 m child \/
     (exists s p ks, c = Sync s m /\ at_thread st2 s (Send f p ks) /\
                     at_thread st3 m (consumer (val p) (err p))) \/
     (c = Run m /\ is_closed st2 f /\ at_thread st3 m (consumer zeroValue nil))) /\
  (forall m st2 s p ks, alive st2 -> is_open st2 f ->
     at_thread st2 s (Send f p ks) ->
     (at_thread st2 m child_ctx \/ at_thread st2 m child) ->
     exists st3, step (Sync s m) st2 = Some st3 /\
                 at_thread st3 m (consumer (val p) (err p))) /\
  (forall m st2 reason, alive st2 -> at_thread st2 m child_ctx ->
     ctx_err st2 ctx = Some reason ->
     exists st3 st4, step (Alt m) st2 = Some st3 /\ step (Run m) st3 = Some st4 /\
                     at_thread st4 m (consumer zeroValue (Some reason))).
Proof.
  intros Hal n child_ctx child reading. split_and!.
  - intros Hi. simpl in Hi.
    destruct (step_go Hal Hi) as (? & ? & ? & ? & ? & ? & _). eauto 10.
  - intros Hi. simpl in Hi.
    destruct (step_go Hal Hi) as (? & ? & ? & ? & ? & ? & _). eauto 10.
  - intros m st2 c st3 Hm Hs.
    destruct (select_ctx_step Hm Hs)
      as [? | [(s & p & ks & ? & ? & ? & ?) | [(? & ? & ?) | (? & [reason Hc] & ?)]]].
    + by left.
    + right; left. by exists s, p, ks.
    + right; right; left. done.
    + right; right; right. split_and!; try done. exists reason. split; [done |].
      intros sched st4 c' st5 Hr Hm4 Hs5.
      destruct (ctx_err_step Hm4 Hs5) as [? | [? Hm5]]; [by left | right].
      split; [done |].
      assert (ctx_err st4 ctx = Some reason) as Hc4.
      { eapply run_ctx_mono; [done |]. by eapply step_ctx_mono. }
      by rewrite Hc4 in Hm5.
  - intros m st2 c st3 Hm Hs.
    destruct (recv_step Hm Hs) as [? | [(s & p & ks & ? & ? & ? & ?) | (? & ? & ?)]].
    + by left.
    + right; left. by exists s, p, ks.
    + right; right. done.
  - intros m st2 s p ks Hal2 Hf2 Hs2 [Hm | Hm].
    + pose proof (step_sync (kr := fun p => consumer (val p) (err p)) Hal2 Hf2 Hs2 Hm) as Hs.
      simpl in Hs. rewrite decide_True in Hs by done. specialize (Hs eq_refl).
      eexists. split; [exact Hs |].
      eapply (step_sync_threads (kr := fun p => consumer (val p) (err p)) Hs2 Hm).
      simpl. by rewrite decide_True.
    + pose proof (step_sync (kr := fun p => consumer (val p) (err p)) Hal2 Hf2 Hs2 Hm) as Hs.
      simpl in Hs. rewrite decide_True in Hs by done. specialize (Hs eq_refl).
      eexists. split; [exact Hs |].
      eapply (step_sync_threads (kr := fun p => consumer (val p) (err p)) Hs2 Hm).
      simpl. by rewrite decide_True.
  - intros m st2 reason Hal2 Hm Hc.
    set (st3 := set_thread m reading st2).
    assert (at_thread st3 m reading) as Hm3 by (by eapply set_thread_lookup).
    exists st3, (set_thread m (consumer zeroValue (Some reason)) st3).
    unfold alive, at_thread in *. split_and!.
    + unfold step, alt. rewrite Hal2, Hm. unfold child_ctx. simpl.
      unfold ctx_done. by rewrite Hc.
    + unfold step, run_thread. simpl panicked. rewrite Hal2, Hm3. unfold reading.
      change (ctx_err st3 ctx) with (ctx_err st2 ctx). by rewrite Hc.
    + by eapply set_thread_lookup.
Qed.

Lemma async_goroutine_step st n f c st' :
  async_goroutine st n f -> step c st = Some st' -> async_goroutine st' n f.
Proof.
  intros [[m Hm] | [Hm | Hm]] Hs.
  - destruct (bind_step Hm Hs) as [[r ->] | [m' Hm']]; [| left; eauto].
    simpl in Hm. destruct (send_step Hm Hs) as [Hn | Hn].
    + left. by exists (Ret r).
    + right; left. done.
  - destruct (close_step Hm Hs) as [Hn | Hn]; [right; left | right; right]; done.
  - right; right. by eapply ret_step.
Qed.

Lemma async_goroutine_run sched st n f st' :
  async_goroutine st n f -> run sched st = Some st' -> async_goroutine st' n f.
Proof.
  revert st. induction sched as [| c sched IH]; intros st; simpl.
  - by intros ? [= <-].
  - destruct (step c st) as [st1 |] eqn:Hs; [| discriminate].
    intros Hinv Hr. eapply IH; [| done]. by eapply async_goroutine_step.
Qed.

(** C6: [Async] makes a fresh future and starts the goroutine
    [f.Resolve(provider())]; after two steps of its own, which nothing
    can hold up, the caller has the future while the provider has not
    taken a step; whatever runs afterwards, that goroutine only runs the
    provider, then resolves the future with what the provider returned,
    then closes it; and once the provider has returned [(v, e)], what the
    goroutine offers on the future is this pair, so the [Await] (of either
    variant) that takes it returns [(v, e)]. *)
Theorem Async_returns_future st i (provider : prog (T * error)) (k : Future -> prog unit) :
  alive st ->
  at_thread st i (f <- Async provider ;; k f) ->
  let f := length (chans st) in
  let n := length (threads st) in
  exists st1 st2,
    step (Run i) st = Some st1 /\ step (Run i) st1 = Some st2 /\
    at_thread st2 i (k f) /\
    at_thread st2 n (r <- provider ;; Resolve f (fst r) (snd r)) /\
    alive st2 /\ is_open st2 f /\ chans st2 = chans st ++ [false] /\ log st2 = log st /\
    forall sched st3, run sched st2 = Some st3 ->
      async_goroutine st3 n f /\
      (alive st3 -> is_open st3 f ->
       forall v e j (k' : T * error -> prog unit),
         at_thread st3 n (r <- Ret (v, e) ;; Resolve f (fst r) (snd r)) ->
         (at_thread st3 j (r <- Poll.Await f ;; k' r) \/
          exists ctx, at_thread st3 j (r <- Ctx.Await f ctx ;; k' r)) ->
         exists st4, step (Sync n j) st3 = Some st4 /\
                     at_thread st4 j (k' (v, e)) /\
                     at_thread st4 n (Close f (Ret tt))).
Proof.
  intros Hal Hi f n. simpl in Hi.
  set (child := r <- provider ;; Resolve f (fst r) (snd r)).
  set (st1 := set_thread i (Go child (k f)) (set_chans (chans st ++ [false]) st)).
  assert (step (Run i) st = Some st1) as Hs0.
  { unfold alive, at_thread, step, run_thread in *. by rewrite Hal, Hi. }
  assert (at_thread st1 i (Go child (k f))) as Hi1 by (by eapply set_thread_lookup).
  assert (alive st1) as Hal1 by exact Hal.
  destruct (step_go Hal1 Hi1) as (Hs1 & Hi2 & Hn2 & _ & Hc2 & Hl2 & _).
  change (length (threads st1)) with (length (<[i:=Go child (k f)]> (threads st))) in Hn2.
  rewrite length_insert in Hn2.
  exists st1, (spawn child (set_thread i (k f) st1)). split_and!; try done.
  - unfold is_open. simpl. by apply list_lookup_middle.
  - intros sched st3 Hr. split.
    { eapply async_goroutine_run; [| exact Hr]. left. by exists provider. }
    intros Hal3 Hf3 v e j k' Hn3 Hj3. simpl in Hn3.
    assert (exists q, at_thread st3 j q /\
              recv_cont q f = Some (fun p => k' (val p, err p))) as (q & Hq & Hrc).
    { destruct Hj3 as [Hj3 | [ctx Hj3]]; eexists; (split; [exact Hj3 |]);
        simpl; by rewrite decide_True. }
    eexists. split; [exact (step_sync Hal3 Hf3 Hn3 Hq Hrc) |].
    destruct (step_sync_threads Hn3 Hq Hrc) as (? & ? & _). done.
Qed.

(** ** Which operations block *)

(** A goroutine waiting in a receive on an unresolved future is blocked,
    unless the second case of its [select] is ready. *)
Lemma receiver_blocked st i f (q : prog unit) :
  unresolved st f -> at_thread st i q ->
  (forall f' kr, recv_cont q f' = Some kr -> f' = f) ->
  (exists kr, recv_cont q f = Some kr) ->
  alt i st = None ->
  blocked st i.
Proof.
  intros Hun Hi Hq [kr Hkr] Halt. assert (Hf := proj1 Hun).
  unfold blocked, is_open, at_thread in *. split_and!.
  - unfold step, run_thread. destruct (panicked st); [done |]. rewrite Hi.
    destruct q; simpl in Hkr; try discriminate; case_decide; simplify_eq;
      by rewrite Hf.
  - unfold step. by destruct (panicked st).
  - intros j. unfold step, sync. destruct (panicked st); [done |]. rewrite Hi.
    by destruct q.
  - by apply (unresolved_no_sync Hun Hi).
Qed.

(** C3 (as the code has it): [Get], [Async] and [Then] never block their
    caller: each of their steps can be taken in every state of the
    program that has not panicked.  [Resolve] does block: on an open
    channel it waits until a receiver of the future is ready, and goes on
    exactly by handing its value to one.  [Await] blocks while the future
    is unresolved (the context variant: and the context is not done), and
    [AwaitWithTimeout] while in addition the timer has not fired. *)
Theorem blocking_operations st i f :
  alive st ->
  (forall k : Optional T -> prog unit,
     at_thread st i (o <- Poll.Get f ;; k o) ->
     exists st1, step (Run i) st = Some st1 /\
       forall sched st2, run sched st1 = Some st2 -> alive st2 ->
         threads st2 !! i = threads st1 !! i ->
         exists st3, step (Alt i) st2 = Some st3 /\
           at_thread st3 i (k {| Optional_Present := false;
                                 Optional_Value := zeroValue;
                                 Optional_Err := nil |})) /\
  (forall (provider : prog (T * error)) (k : Future -> prog unit),
     at_thread st i (f' <- Async provider ;; k f') ->
     exists st1, step (Run i) st = Some st1 /\
       forall st2, alive st2 -> threads st2 !! i = threads st1 !! i ->
         exists st3, step (Run i) st2 = Some st3 /\
                     at_thread st3 i (k (length (chans st)))) /\
  (forall ctx (consumer : T -> error -> prog unit) (k : prog unit),
     at_thread st i (_ <- Ctx.Then f ctx consumer ;; k) ->
     exists st1, step (Run i) st = Some st1 /\ at_thread st1 i k) /\
  (forall (consumer : T -> error -> prog unit) (k : prog unit),
     at_thread st i (_ <- Poll.Then f consumer ;; k) ->
     exists st1, step (Run i) st = Some st1 /\ at_thread st1 i k) /\
  (forall v e (k : prog unit),
     is_open st f -> at_thread st i (_ <- Resolve f v e ;; k) ->
     (forall j q, at_thread st j q -> recv_cont q f = None) ->
     blocked st i) /\
  (forall v e (k : prog unit) j q kr,
     is_open st f -> at_thread st i (_ <- Resolve f v e ;; k) ->
     at_thread st j q -> recv_cont q f = Some kr ->
     step (Sync i j) st =
       Some (set_thread j (kr {| val := v; err := e |}) (set_thread i (Close f k) st))) /\
  (forall k' : T * error -> prog unit,
     unresolved st f -> at_thread st i (r <- Poll.Await f ;; k' r) ->
     blocked st i) /\
  (forall ctx (k' : T * error -> prog unit),
     unresolved st f -> at_thread st i (r <- Ctx.Await f ctx ;; k' r) ->
     ctx_err st ctx = nil ->
     blocked st i) /\
  (forall tm (kr : payload -> prog unit) (kf : prog unit),
     unresolved st f -> at_thread st i (SelectTimer f tm kr kf) ->
     now st < tm ->
     blocked st i).
Proof.
  intros Hal. split_and!.
  - intros k Hi. simpl in Hi.
    set (q1 := SelectTimer f (now st + 0)
                 (fun p => k {| Optional_Present := true; Optional_Value := val p;
                                Optional_Err := err p |})
                 (k {| Optional_Present := false; Optional_Value := zeroValue;
                       Optional_Err := nil |})).
    exists (set_thread i q1 st). split.
    { unfold alive, at_thread, step, run_thread in *. by rewrite Hal, Hi. }
    intros sched st2 Hr Hal2 Hi2.
    apply run_now_mono in Hr. simpl in Hr.
    assert (at_thread st2 i q1) as Hq1.
    { unfold at_thread. rewrite Hi2. by eapply set_thread_lookup. }
    eexists. split.
    + unfold alive, at_thread, step, alt in *. rewrite Hal2, Hq1. unfold q1.
      rewrite decide_True by lia. done.
    + by eapply set_thread_lookup.
  - intros provider k Hi. simpl in Hi.
    set (child := r <- provider ;; Resolve (length (chans st)) (fst r) (snd r)).
    set (q1 := Go child (k (length (chans st)))).
    exists (set_thread i q1 (set_chans (chans st ++ [false]) st)). split.
    { unfold alive, at_thread, step, run_thread in *. by rewrite Hal, Hi. }
    intros st2 Hal2 Hi2.
    assert (at_thread st2 i q1) as Hq1.
    { unfold at_thread. rewrite Hi2. by eapply set_thread_lookup. }
    destruct (step_go Hal2 Hq1) as (? & ? & _). eauto.
  - intros ctx consumer k Hi. simpl in Hi.
    destruct (step_go Hal Hi) as (? & ? & _). eauto.
  - intros consumer k Hi. simpl in Hi.
    destruct (step_go Hal Hi) as (? & ? & _). eauto.
  - intros v e k Hf Hi Hno. simpl in Hi.
    destruct (step_send_open Hf Hi) as (? & ? & ? & Hsync).
    unfold blocked. split_and!; try done.
    intros j. destruct (step (Sync i j) st) as [st' |] eqn:Hs; [| done].
    destruct (Hsync j) as (q & kr & Hq & Hkr); [by rewrite Hs |].
    apply Hno in Hq. congruence.
  - intros v e k j q kr Hf Hi Hj Hq. simpl in Hi.
    by apply (step_sync Hal Hf Hi Hj).
  - intros k' Hun Hi. simpl in Hi.
    apply (receiver_blocked Hun Hi).
    + simpl. intros f' kr. by case_decide.
    + simpl. rewrite decide_True by done. eauto.
    + unfold alt. unfold at_thread in Hi. by rewrite Hi.
  - intros ctx k' Hun Hi Hc. simpl in Hi.
    apply (receiver_blocked Hun Hi).
    + simpl. intros f' kr. by case_decide.
    + simpl. rewrite decide_True by done. eauto.
    + unfold alt. unfold at_thread in Hi. rewrite Hi. unfold ctx_done. by rewrite Hc.
  - intros tm kr kf Hun Hi Hlt.
    apply (receiver_blocked Hun Hi).
    + simpl. intros f' kr'. by case_decide.
    + simpl. rewrite decide_True by done. eauto.
    + unfold alt. unfold at_thread in Hi. rewrite Hi. rewrite decide_False by lia. done.
Qed.

(** ** Await with a timeout *)

(** Only the clock moves while the clock ticks. *)
Lemma run_ticks n st :
  alive st ->
  exists st', run (replicate n Tick) st = Some st' /\
    now st' = now st + n /\ threads st' = threads st /\ chans st' = chans st /\
    log st' = log st /\ ctxs st' = ctxs st /\ panicked st' = panicked st.
Proof.
  revert st. induction n as [| n IH]; intros st Hal.
  - exists st. split_and!; try done; simpl; lia.
  - destruct (IH (tick st) Hal) as (st' & Hr & Hn & Ht & Hc & Hl & Hx & Hp).
    exists st'. split_and!; try done.
    + cbn [replicate run]. unfold step. unfold alive in Hal. by rewrite Hal.
    + simpl in Hn. lia.
Qed.

(** X6: [AwaitWithTimeout(t)] on an unresolved future: it starts its
    timer at once; as long as fewer than [t] ticks have passed and nobody
    resolves, it is blocked; once [t] ticks have passed the timer case is
    its only way on, and it returns [(zero, nil, false)], no error with
    it; the channel heap, the reports and every other goroutine are as
    they were, and an [Await] made afterwards still takes the value of a
    resolver. *)
Theorem AwaitWithTimeout_times_out st i f (t : duration)
    (k3 : T * error * bool -> prog unit) :
  alive st -> unresolved st f ->
  at_thread st i (r <- Poll.AwaitWithTimeout f t ;; k3 r) ->
  exists st1,
    step (Run i) st = Some st1 /\
    (forall n st2, n < t -> run (replicate n Tick) st1 = Some st2 -> blocked st2 i) /\
    exists st2 st3,
      run (replicate t Tick) st1 = Some st2 /\
      step (Run i) st2 = None /\ (forall s, step (Sync s i) st2 = None) /\
      step (Alt i) st2 = Some st3 /\
      at_thread st3 i (k3 (zeroValue, nil, false)) /\
      chans st3 = chans st /\ log st3 = log st /\
      (forall n, n <> i -> threads st3 !! n = threads st !! n) /\
      forall s j v e (ks : prog unit) (k' : T * error -> prog unit),
        at_thread st3 s (_ <- Resolve f v e ;; ks) ->
        at_thread st3 j (r <- Poll.Await f ;; k' r) ->
        exists st4, step (Sync s j) st3 = Some st4 /\ at_thread st4 j (k' (v, e)).
Proof.
  intros Hal Hun Hi. simpl in Hi.
  set (sel := SelectTimer f (now st + t) (fun p => k3 (val p, err p, true))
                (k3 (zeroValue, nil, false))).
  set (st1 := set_thread i sel st).
  assert (step (Run i) st = Some st1) as Hs0.
  { unfold alive, at_thread, step, run_thread in *. by rewrite Hal, Hi. }
  assert (alive st1) as Hal1 by exact Hal.
  assert (at_thread st1 i sel) as Hi1 by (by eapply set_thread_lookup).
  assert (unresolved st1 f) as Hun1 by (by apply unresolved_set_thread).
  assert (forall n st2, run (replicate n Tick) st1 = Some st2 ->
            now st2 = now st + n /\ alive st2 /\ at_thread st2 i sel /\
            unresolved st2 f /\ threads st2 = threads st1 /\
            chans st2 = chans st /\ log st2 = log st) as Hticks.
  { intros n st2 Hr.
    destruct (run_ticks n Hal1) as (st' & Hr' & Hn & Ht & Hc & Hl & _ & Hp).
    rewrite Hr in Hr'. injection Hr' as <-.
    split_and!; try done.
    - unfold alive in *. congruence.
    - unfold at_thread in *. congruence.
    - destruct Hun1 as [Hf Hno]. split.
      + unfold is_open in *. congruence.
      + intros n' p k. rewrite Ht. apply Hno. }
  exists st1. split; [done |]. split.
  { intros n st2 Hlt Hr.
    destruct (Hticks n st2 Hr) as (Hn & Hal2 & Hi2 & Hun2 & _).
    apply (receiver_blocked Hun2 Hi2).
    - simpl. intros f' kr. by case_decide.
    - simpl. rewrite decide_True by done. eauto.
    - unfold alt. unfold at_thread in Hi2. rewrite Hi2. unfold sel.
      rewrite decide_False by lia. done. }
  destruct (run_ticks t Hal1) as (st2 & Hr & _).
  destruct (Hticks t st2 Hr) as (Hn & Hal2 & Hi2 & Hun2 & Ht2 & Hc2 & Hl2).
  exists st2, (set_thread i (k3 (zeroValue, nil, false)) st2).
  assert (Hf2 := proj1 Hun2). unfold alive, is_open, at_thread in Hal2, Hf2, Hi2.
  split_and!; try done.
  - unfold step, run_thread. rewrite Hal2, Hi2. unfold sel. by rewrite Hf2.
  - apply (unresolved_no_sync Hun2 Hi2). simpl. intros f' kr. by case_decide.
  - unfold step, alt. rewrite Hal2, Hi2. unfold sel.
    rewrite decide_True by lia. done.
  - by eapply set_thread_lookup.
  - intros n Hne. simpl. rewrite list_lookup_insert_ne by done.
    rewrite Ht2. simpl. by rewrite list_lookup_insert_ne.
  - intros s j v e ks k' Hs Hj. simpl in Hs, Hj.
    assert (alive (set_thread i (k3 (zeroValue, nil, false)) st2)) as Hal3 by exact Hal2.
    assert (is_open (set_thread i (k3 (zeroValue, nil, false)) st2) f) as Hf3 by exact Hf2.
    eexists. split.
    + exact (step_sync Hal3 Hf3 Hs Hj (recv_cont_Await f k')).
    + by destruct (step_sync_threads Hs Hj (recv_cont_Await f k')) as (? & _).
Qed.

(** ** Poll against a pending resolution *)

(** X7: a [Get] that meets a resolver takes the resolution: it returns
    [Present = true] with the resolver's value and error, this is the one
    hand-off of that resolver, which then closes the channel; every [Get]
    made afterwards that reads the future finds [Present = true] with the
    zero value and a nil error: the outcome is gone. *)
Theorem Get_takes_resolution st i j f v e (ks : prog unit) (k : Optional T -> prog unit) :
  alive st -> is_open st f ->
  at_thread st i (_ <- Resolve f v e ;; ks) ->
  at_thread st j (o <- Poll.Get f ;; k o) ->
  exists st1 st2 st3,
    step (Run j) st = Some st1 /\
    step (Sync i j) st1 = Some st2 /\
    at_thread st2 j (k {| Optional_Present := true; Optional_Value := v;
                          Optional_Err := e |}) /\
    step (Run i) st2 = Some st3 /\
    at_thread st3 i ks /\ is_closed st3 f /\
    forall sched st4, run sched st3 = Some st4 -> alive st4 ->
      forall j' (k' : Optional T -> prog unit),
        at_thread st4 j' (o <- Poll.Get f ;; k' o) ->
        exists st5 st6,
          step (Run j') st4 = Some st5 /\ step (Run j') st5 = Some st6 /\
          at_thread st6 j' (k' {| Optional_Present := true;
                                  Optional_Value := zeroValue;
                                  Optional_Err := nil |}).
Proof.
  intros Hal Hf Hi Hj. simpl in Hj.
  assert (i <> j) as Hne.
  { intros ->. unfold at_thread in *. simpl in Hi. rewrite Hi in Hj. discriminate. }
  set (kr := fun p : payload => k {| Optional_Present := true; Optional_Value := val p;
                                     Optional_Err := err p |}).
  set (kf := k {| Optional_Present := false; Optional_Value := zeroValue;
                  Optional_Err := nil |}).
  set (sel := SelectTimer f (now st + 0) kr kf).
  set (st1 := set_thread j sel st).
  assert (step (Run j) st = Some st1) as Hs0.
  { unfold alive, at_thread, step, run_thread in *. by rewrite Hal, Hj. }
  assert (at_thread st1 j sel) as Hj1 by (by eapply set_thread_lookup).
  assert (at_thread st1 i (_ <- sendAndClose f (payload_lit (Some v) (Some e)) ;; ks)) as Hi1.
  { unfold at_thread. unfold st1. rewrite set_thread_lookup_ne by done. exact Hi. }
  assert (recv_cont sel f = Some kr) as Hrc by (simpl; by rewrite decide_True).
  destruct (sendAndClose_handoff (st := st1) Hal Hf Hi1 Hj1 Hrc)
    as (st2 & st3 & ? & ? & _ & ? & ? & _ & ? & _ & Hlater).
  exists st1, st2, st3. split_and!; try done.
  intros sched st4 Hr Hal4 j' k' Hj'. simpl in Hj'.
  set (sel' := SelectTimer f (now st4 + 0)
                 (fun p => k' {| Optional_Present := true; Optional_Value := val p;
                                 Optional_Err := err p |})
                 (k' {| Optional_Present := false; Optional_Value := zeroValue;
                        Optional_Err := nil |})).
  exists (set_thread j' sel' st4).
  assert (run (sched ++ [Run j']) st3 = Some (set_thread j' sel' st4)) as Hr'.
  { clear -Hr Hal4 Hj'. revert Hr. generalize st3. induction sched as [| c sched IH];
      intros s0; cbn [run app].
    - intros [= ->]. unfold alive, at_thread, step, run_thread in *.
      by rewrite Hal4, Hj'.
    - destruct (step c s0); [apply IH | discriminate]. }
  assert (at_thread (set_thread j' sel' st4) j' sel') as Hj5 by (by eapply set_thread_lookup).
  destruct (Hlater _ _ Hr' Hal4 j' sel' _ Hj5 ltac:(simpl; by rewrite decide_True))
    as (st6 & ? & ? & _).
  exists st6. split_and!; try done.
  unfold alive, at_thread, step, run_thread in *. by rewrite Hal4, Hj'.
Qed.

(** ** The nil future *)

(** X8: a [Future] that refers to no channel (the zero value of the type,
    a nil channel): [Resolve] on it blocks, and so does [Await]; the
    context variant's [Await] blocks until its context is done; and [Get]
    reports [Present = false], the timer case being its only way on. *)
Theorem nil_future_blocks st i f :
  alive st -> chans st !! f = None ->
  (forall v e (k : prog unit),
     at_thread st i (_ <- Resolve f v e ;; k) -> blocked st i) /\
  (forall k' : T * error -> prog unit,
     at_thread st i (r <- Poll.Await f ;; k' r) -> blocked st i) /\
  (forall ctx (k' : T * error -> prog unit),
     at_thread st i (r <- Ctx.Await f ctx ;; k' r) ->
     ctx_err st ctx = nil -> blocked st i) /\
  (forall k : Optional T -> prog unit,
     at_thread st i (o <- Poll.Get f ;; k o) ->
     exists st1 st2,
       step (Run i) st = Some st1 /\
       step (Run i) st1 = None /\ (forall s, step (Sync s i) st1 = None) /\
       step (Alt i) st1 = Some st2 /\
       at_thread st2 i (k {| Optional_Present := false; Optional_Value := zeroValue;
                             Optional_Err := nil |})).
Proof.
  intros Hal Hnil.
  assert (forall st0 (q : prog unit), chans st0 = chans st ->
            (forall f' kr, recv_cont q f' = Some kr -> f' = f) ->
            at_thread st0 i q -> forall s, step (Sync s i) st0 = None) as Hnosync.
  { intros st0 q Hc Hq Hi s.
    destruct (step (Sync s i) st0) as [st' |] eqn:Hs; [| done].
    apply sync_inv in Hs as (f' & p & k & q' & kr & _ & Hf & Hj & Hr & _).
    unfold at_thread in *. rewrite Hi in Hj. injection Hj as <-.
    apply Hq in Hr as ->. unfold is_open in Hf. rewrite Hc in Hf. congruence. }
  unfold alive in Hal. split_and!.
  - intros v e k Hi. simpl in Hi. unfold blocked, at_thread in *. split_and!.
    + unfold step, run_thread. by rewrite Hal, Hi, Hnil.
    + unfold step, alt. by rewrite Hal, Hi.
    + intros j. unfold step, sync. by rewrite Hal, Hi, Hnil.
    + intros j. destruct (step (Sync j i) st) as [st' |] eqn:Hs; [| done].
      apply sync_inv in Hs as (f' & p & k0 & q' & kr & _ & _ & Hj & Hr & _).
      unfold at_thread in Hj. rewrite Hi in Hj. injection Hj as <-. discriminate.
  - intros k' Hi. simpl in Hi. unfold blocked. split_and!.
    + unfold at_thread, step, run_thread in *. by rewrite Hal, Hi, Hnil.
    + unfold at_thread, step, alt in *. by rewrite Hal, Hi.
    + intros j. unfold at_thread, step, sync in *. by rewrite Hal, Hi.
    + eapply (Hnosync st); [done | | exact Hi]. simpl. intros f' kr. by case_decide.
  - intros ctx k' Hi Hc. simpl in Hi. unfold blocked. split_and!.
    + unfold at_thread, step, run_thread in *. by rewrite Hal, Hi, Hnil.
    + unfold at_thread, step, alt in *. rewrite Hal, Hi. unfold ctx_done. by rewrite Hc.
    + intros j. unfold at_thread, step, sync in *. by rewrite Hal, Hi.
    + eapply (Hnosync st); [done | | exact Hi]. simpl. intros f' kr. by case_decide.
  - intros k Hi. simpl in Hi.
    set (kr := fun p : payload => k {| Optional_Present := true; Optional_Value := val p;
                                       Optional_Err := err p |}).
    set (kf := k {| Optional_Present := false; Optional_Value := zeroValue;
                    Optional_Err := nil |}).
    set (sel := SelectTimer f (now st + 0) kr kf).
    set (st1 := set_thread i sel st).
    assert (at_thread st1 i sel) as Hi1 by (by eapply set_thread_lookup).
    exists st1, (set_thread i kf st1). split_and!.
    + unfold at_thread, step, run_thread in *. by rewrite Hal, Hi.
    + unfold at_thread, step, run_thread in *. simpl panicked. rewrite Hal, Hi1.
      unfold sel. simpl chans. by rewrite Hnil.
    + eapply (Hnosync st1); [done | | exact Hi1]. simpl. intros f' kr'. by case_decide.
    + unfold at_thread, step, alt in *. simpl panicked. rewrite Hal, Hi1. unfold sel.
      simpl now. rewrite decide_True by lia. done.
    + by eapply set_thread_lookup.
Qed.

End Theory.

(** * The client programs under the theorems *)

Module Scenario.

Import Client.
#[local] Open Scope string_scope.
#[local] Open Scope Z_scope.

(** C1, the claim fails: [main] resolves the future with [42] (the
    goroutine started before takes the value), [Value] returns, and the
    [Await] that [main] makes next returns [(0, nil)], not [(42, nil)]. *)
Lemma Await_after_Value_returns_zero :
  exists st st',
    run [Run 0; Run 0; Sync 0 1; Run 0]%nat (boot (value_then_await 42) []) = Some st /\
    threads st !! 0%nat = Some (r <- Poll.Await 0%nat ;; report_as "main" r) /\
    threads st !! 1%nat = Some (report_as "first" (42, nil)) /\
    run [Run 0; Run 0; Run 1]%nat st = Some st' /\
    log st' = [("main", (0, nil)); ("first", (42, nil))] /\
    (0, nil) <> (42, nil).
Proof.
  do 2 eexists. split_and!; [vm_compute; reflexivity | reflexivity | reflexivity
                            | vm_compute; reflexivity | reflexivity | discriminate].
Qed.

(** C8, the claim fails: after [f.Error(boom)] has returned, the next
    [Await] returns [(0, nil)], not [(0, boom)]. *)
Lemma Await_after_Error_returns_nil :
  exists st st',
    run [Run 0; Run 0; Sync 0 1; Run 0]%nat (boot (error_then_await boom) []) = Some st /\
    threads st !! 0%nat = Some (r <- Poll.Await 0%nat ;; report_as "main" r) /\
    threads st !! 1%nat = Some (report_as "first" (0, boom)) /\
    run [Run 0; Run 0; Run 1]%nat st = Some st' /\
    log st' = [("main", (0, nil)); ("first", (0, boom))] /\
    (0, nil) <> (0, boom).
Proof.
  do 2 eexists. split_and!; [vm_compute; reflexivity | reflexivity | reflexivity
                            | vm_compute; reflexivity | reflexivity | discriminate].
Qed.

(** [resolve_alone], once its future is made, cannot move. *)
Lemma resolve_alone_stuck_blocked v t : blocked (resolve_alone_stuck v t) 0.
Proof.
  unfold blocked. split_and!; try reflexivity.
  - intros [| j]; [reflexivity | by destruct j].
  - intros [| j]; [reflexivity | by destruct j].
Qed.

(** From there only the clock moves. *)
Lemma resolve_alone_stuck_forever v sched : forall t st',
  run sched (resolve_alone_stuck v t) = Some st' ->
  exists t', st' = resolve_alone_stuck v t'.
Proof.
  induction sched as [| c sched IH]; intros t st'; cbn [run].
  - intros [= <-]. eauto.
  - destruct (resolve_alone_stuck_blocked v t) as (Hr & Ha & Hs & _).
    destruct c as [i | i j | j | | cx reason].
    + destruct i as [| i]; [by rewrite Hr | by destruct i].
    + destruct i as [| i]; [by rewrite Hs | by destruct i].
    + destruct j as [| j]; [by rewrite Ha | by destruct j].
    + apply IH.
    + by destruct cx.
Qed.

(** C3, the claim fails: [Resolve] on a future that no goroutine awaits
    blocks its caller, and nothing but the clock moves from then on. *)
Lemma Resolve_alone_blocks :
  exists st,
    run [Run 0]%nat (boot (resolve_alone 42) []) = Some st /\
    alive st /\
    at_thread st 0 (_ <- Resolve 0%nat 42 nil ;; report_as "main" (42, nil)) /\
    blocked st 0 /\
    forall sched st', run sched st = Some st' -> blocked st' 0 /\ log st' = [].
Proof.
  exists (resolve_alone_stuck 42 0). split_and!; try reflexivity.
  - apply resolve_alone_stuck_blocked.
  - intros sched st' Hr. apply resolve_alone_stuck_forever in Hr as [t' ->].
    split; [apply resolve_alone_stuck_blocked | done].
Qed.

(** ** Every schedule of [value_then_await] *)

Lemma value_then_await_step v c st st' :
  value_then_await_state v st -> step c st = Some st' ->
  value_then_await_state v st'.
Proof.
  intros Hst Hs.
  destruct Hst;
    destruct c as [[| [| i]] | [| [| i]] [| [| j]] | [| [| j]] | | cx reason];
    simpl in Hs; try discriminate; injection Hs as <-; by econstructor.
Qed.

Lemma value_then_await_run v sched : forall st st',
  value_then_await_state v st -> run sched st = Some st' ->
  value_then_await_state v st'.
Proof.
  induction sched as [| c sched IH]; intros st st' Hst; cbn [run].
  - by intros [= <-].
  - destruct (step c st) as [st1 |] eqn:Hs; [| discriminate].
    intros Hr. eapply IH; [| exact Hr]. by eapply value_then_await_step.
Qed.

(** X3: in [f := NewFuture(); go report(f.Await()); f.Value(v);
    report(f.Await())], under every schedule, what the goroutine reports
    is [(v, nil)] and what [main] reports, from the await it makes after
    [Value] has returned, is [(0, nil)]; and there is a run in which both
    report. *)
Theorem value_then_await_every_run v :
  (forall sched st, run sched (boot (value_then_await v) []) = Some st ->
     alive st /\
     (forall r, In ("first", r) (log st) -> r = (v, nil)) /\
     (forall r, In ("main", r) (log st) -> r = (0, nil))) /\
  (exists st,
     run [Run 0; Run 0; Sync 0 1; Run 0; Run 0; Run 0; Run 1]%nat
         (boot (value_then_await v) []) = Some st /\
     log st = [("main", (0, nil)); ("first", (v, nil))]).
Proof.
  split.
  - intros sched st Hr.
    assert (value_then_await_state v st) as Hst.
    { eapply value_then_await_run; [| exact Hr]. apply vta_start. }
    destruct Hst; (split; [reflexivity |]); simpl; split; intros r Hin;
      intuition congruence.
  - eexists. split; reflexivity.
Qed.

(** ** Every schedule of [async_then_await] *)

Lemma async_then_await_step v e c st st' :
  async_then_await_state v e st -> step c st = Some st' ->
  async_then_await_state v e st'.
Proof.
  intros Hst Hs.
  destruct Hst;
    destruct c as [[| [| i]] | [| [| i]] [| [| j]] | [| [| j]] | | cx reason];
    simpl in Hs; try discriminate; injection Hs as <-; by econstructor.
Qed.

Lemma async_then_await_run v e sched : forall st st',
  async_then_await_state v e st -> run sched st = Some st' ->
  async_then_await_state v e st'.
Proof.
  induction sched as [| c sched IH]; intros st st' Hst; cbn [run].
  - by intros [= <-].
  - destruct (step c st) as [st1 |] eqn:Hs; [| discriminate].
    intros Hr. eapply IH; [| exact Hr]. by eapply async_then_await_step.
Qed.

(** X4: in [report(Async(func() (int, error) { return v, e }).Await())],
    under every schedule, the program does not panic and what [main]
    reports is the provider's [(v, e)]; and there is a run in which it
    reports and both goroutines finish. *)
Theorem async_then_await_every_run v e :
  (forall sched st, run sched (boot (async_then_await v e) []) = Some st ->
     alive st /\ forall r, In ("main", r) (log st) -> r = (v, e)) /\
  (exists st,
     run [Run 0; Run 0; Sync 1 0; Run 0; Run 1]%nat
         (boot (async_then_await v e) []) = Some st /\
     log st = [("main", (v, e))] /\ threads st = [Ret tt; Ret tt]).
Proof.
  split.
  - intros sched st Hr.
    assert (async_then_await_state v e st) as Hst.
    { eapply async_then_await_run; [| exact Hr]. apply ata_start. }
    destruct Hst; (split; [reflexivity |]); simpl; intros r Hin;
      intuition congruence.
  - eexists. split_and!; reflexivity.
Qed.

(** ** Every schedule of [resolve_twice] *)

Lemma resolve_twice_step v1 v2 c st st' :
  resolve_twice_state v1 v2 st -> step c st = Some st' ->
  resolve_twice_state v1 v2 st'.
Proof.
  intros Hst Hs.
  destruct Hst;
    destruct c as [[| [| i]] | [| [| i]] [| [| j]] | [| [| j]] | | cx reason];
    simpl in Hs; try discriminate; injection Hs as <-; by econstructor.
Qed.

Lemma resolve_twice_run v1 v2 sched : forall st st',
  resolve_twice_state v1 v2 st -> run sched st = Some st' ->
  resolve_twice_state v1 v2 st'.
Proof.
  induction sched as [| c sched IH]; intros st st' Hst; cbn [run].
  - by intros [= <-].
  - destruct (step c st) as [st1 |] eqn:Hs; [| discriminate].
    intros Hr. eapply IH; [| exact Hr]. by eapply resolve_twice_step.
Qed.

(** X5: in [go report(f.Await()); f.Resolve(v1, nil); f.Resolve(v2, nil)],
    under every schedule, the only pair ever reported is the first
    resolution's [(v1, nil)], the second [Resolve] never returns, and the
    only panic is that of a send on the closed channel; and there is a
    run that ends in this panic after the report. *)
Theorem resolve_twice_every_run v1 v2 :
  (forall sched st, run sched (boot (resolve_twice v1 v2) []) = Some st ->
     (forall who r, In (who, r) (log st) -> r = (v1, nil)) /\
     threads st !! 0%nat <> Some (Ret tt) /\
     (panicked st = None \/ panicked st = Some SendOnClosedChannel)) /\
  (exists st,
     run [Run 0; Run 0; Sync 0 1; Run 0; Run 1; Run 0]%nat
         (boot (resolve_twice v1 v2) []) = Some st /\
     log st = [("first", (v1, nil))] /\
     panicked st = Some SendOnClosedChannel).
Proof.
  split.
  - intros sched st Hr.
    assert (resolve_twice_state v1 v2 st) as Hst.
    { eapply resolve_twice_run; [| exact Hr]. apply rt_start. }
    destruct Hst; simpl; split_and!; try discriminate; eauto;
      intros who r Hin; intuition congruence.
  - eexists. split_and!; reflexivity.
Qed.

(** [f.Value(42)] beside one awaiting goroutine. *)
Lemma Value_then_Await_witness :
  exists st1 st2,
    step (Sync 0 1) (pool [_ <- Value 0%nat 42 ;; Ret tt;
                           r <- Poll.Await 0%nat ;; report_as "first" r] []) = Some st1 /\
    step (Run 0) st1 = Some st2 /\
    at_thread st2 1 (report_as "first" (42, nil)) /\ is_closed st2 0.
Proof.
  destruct (@Value_then_Await Z _ obs 42 0%nat 0%nat 1%nat (Ret tt) (report_as "first")
              (pool [_ <- Value 0%nat 42 ;; Ret tt;
                     r <- Poll.Await 0%nat ;; report_as "first" r] [])
              eq_refl eq_refl eq_refl eq_refl)
    as (st1 & st2 & H1 & _ & _ & H2 & _ & H3 & H4 & _).
  exists st1, st2. auto.
Defined.

(** [f.Error(boom)] beside one awaiting goroutine. *)
Lemma Error_then_Await_witness :
  exists st1 st2,
    step (Sync 0 1) (pool [_ <- Error 0%nat boom ;; Ret tt;
                           r <- Poll.Await 0%nat ;; report_as "first" r] []) = Some st1 /\
    step (Run 0) st1 = Some st2 /\
    at_thread st2 1 (report_as "first" (0, boom)) /\ is_closed st2 0.
Proof.
  destruct (@Error_then_Await Z _ obs boom 0%nat 0%nat 1%nat (Ret tt) (report_as "first")
              (pool [_ <- Error 0%nat boom ;; Ret tt;
                     r <- Poll.Await 0%nat ;; report_as "first" r] [])
              eq_refl eq_refl eq_refl eq_refl)
    as (st1 & st2 & H1 & _ & _ & H2 & _ & H3 & H4 & _).
  exists st1, st2. auto.
Defined.

(** [f.Resolve(1, nil); f.Resolve(2, nil)] beside one awaiting goroutine. *)
Lemma second_Resolve_panics_witness :
  exists st1 st2,
    step (Sync 0 1) (pool [_ <- Resolve 0%nat 1 nil ;; _ <- Resolve 0%nat 2 nil ;; Ret tt;
                           r <- Poll.Await 0%nat ;; report_as "first" r] []) = Some st1 /\
    step (Run 0) st1 = Some st2 /\
    at_thread st2 1 (report_as "first" (1, nil)) /\
    step (Run 0) st2 = Some (raise SendOnClosedChannel st2) /\
    (forall j, step (Sync 0 j) st2 = None) /\
    (forall c, step c (raise SendOnClosedChannel st2) = None).
Proof.
  destruct (@second_Resolve_panics Z _ obs 1 nil 2 nil 0%nat 0%nat 1%nat
              (_ <- Resolve 0%nat 2 nil ;; Ret tt)
              (r <- Poll.Await 0%nat ;; report_as "first" r)
              (fun p => report_as "first" (val p, err p))
              (pool [_ <- Resolve 0%nat 1 nil ;; _ <- Resolve 0%nat 2 nil ;; Ret tt;
                     r <- Poll.Await 0%nat ;; report_as "first" r] [])
              eq_refl eq_refl eq_refl eq_refl eq_refl)
    as (st1 & st2 & H1 & H2 & H3 & H4 & H5 & H6).
  destruct (H6 [] st2 eq_refl H5 0%nat (Ret tt) H3) as (H7 & H8 & _ & _ & _ & _ & H9).
  exists st1, st2. auto 10.
Defined.

(** A resolver offering [(42, boom)] and, in turn, an awaiter of each kind. *)
Lemma Await_variants_agree_witness :
  let st := pool [Send 0%nat {| val := 42; err := boom |} (Close 0%nat (Ret tt)); Ret tt] [] in
  let st' := set_thread 1 (report_as "got" (42, boom)) (set_thread 0 (Close 0%nat (Ret tt)) st) in
  (exists s1, step (Sync 0 1)
                (set_thread 1 (r <- Ctx.Await 0%nat Background ;; report_as "got" r) st) = Some s1 /\
              threads s1 = threads st') /\
  (exists s2, step (Sync 0 1)
                (set_thread 1 (r <- Poll.Await 0%nat ;; report_as "got" r) st) = Some s2 /\
              threads s2 = threads st') /\
  (exists s0 s3, step (Run 1)
                   (set_thread 1 (r <- Poll.AwaitWithTimeout 0%nat 7%nat ;;
                                  if snd r then report_as "got" (fst r) else Ret tt) st) = Some s0 /\
                 step (Sync 0 1) s0 = Some s3 /\ threads s3 = threads st').
Proof.
  intros st st'.
  destruct (@Await_variants_agree Z _ obs 42 boom 0%nat 0%nat 1%nat (Close 0%nat (Ret tt))
              (report_as "got") 7%nat st eq_refl eq_refl eq_refl
              (le_n 2) (O_S 0))
    as ((s1 & H1 & H2 & _) & (s2 & H3 & H4 & _) & (s0 & s3 & H5 & H6 & H7 & _) & _).
  split_and!; [exists s1 | exists s2 | exists s0, s3]; auto.
Defined.

(** A pool of one goroutine that is not sending leaves the future unresolved. *)
Lemma pool_one_unresolved (q : prog unit) cx :
  (forall p k, q <> Send 0%nat p k) -> unresolved (pool [q] cx) 0.
Proof.
  intros Hq. split; [reflexivity |].
  intros [| i] p k; simpl; [| by destruct i]. intros [= ->]. by eapply Hq.
Qed.


Lemma Await_is_no_send p (k : prog unit) :
  (r <- Ctx.Await 0%nat (WithCancel 0) ;; report_as "main" r) <> Send 0%nat p k.
Proof. discriminate. Qed.


(** [f := NewFuture[int](); report(f.Get())] *)
Lemma NewFuture_then_Get_witness :
  exists st1 st2 st3,
    step (Run 0) (boot (f <- NewFuture ;; o <- Poll.Get f ;; report_optional o) []) = Some st1 /\
    unresolved st1 0 /\
    step (Run 0) st1 = Some st2 /\ step (Alt 0) st2 = Some st3 /\
    at_thread st3 0 (report_as "absent" (0, nil)).
Proof.
  destruct (@NewFuture_then_Get Z _ obs
              (boot (f <- NewFuture ;; o <- Poll.Get f ;; report_optional o) [])
              0%nat (fun _ o => report_optional o) eq_refl eq_refl)
    as (st1 & st2 & st3 & H1 & H2 & _ & H3 & _ & _ & H4 & H5).
  { intros [| n] p q; simpl; [discriminate | by destruct n]. }
  exists st1, st2, st3. auto 10.
Defined.

(** [go f.Resolve(1, nil); go f.Resolve(2, nil)] and two awaiting goroutines. *)
Lemma racing_Resolves_witness :
  exists st',
    run [Sync 0 2; Sync 1 3; Run 0; Run 1]
        (pool [_ <- Resolve 0%nat 1 nil ;; Ret tt; _ <- Resolve 0%nat 2 nil ;; Ret tt;
               r <- Poll.Await 0%nat ;; report_as "a" r;
               r <- Poll.Await 0%nat ;; report_as "b" r] []) = Some st' /\
    at_thread st' 2 (report_as "a" (1, nil)) /\
    at_thread st' 3 (report_as "b" (2, nil)) /\
    panicked st' = Some CloseOfClosedChannel.
Proof.
  apply (@racing_Resolves_both_observed Z _ obs 1 nil 2 nil 0%nat 0%nat 1%nat 2%nat 3%nat
           (Ret tt) (Ret tt) (report_as "a") (report_as "b")
           (pool [_ <- Resolve 0%nat 1 nil ;; Ret tt; _ <- Resolve 0%nat 2 nil ;; Ret tt;
                  r <- Poll.Await 0%nat ;; report_as "a" r;
                  r <- Poll.Await 0%nat ;; report_as "b" r] [])
           eq_refl eq_refl eq_refl eq_refl eq_refl eq_refl); discriminate.
Defined.

(** [report(f.Await(ctx))] on an unresolved future, [ctx] expiring. *)
Lemma Await_cancelled_witness :
  let st := pool [r <- Ctx.Await 0%nat (WithCancel 0) ;; report_as "main" r] [nil] in
  blocked st 0 /\
  exists st0 st1 st2,
    step (Cancel 0 DeadlineExceeded) st = Some st0 /\
    step (Alt 0) st0 = Some st1 /\ step (Run 0) st1 = Some st2 /\
    at_thread st2 0 (report_as "main" (0, Some DeadlineExceeded)) /\
    chans st2 = [false].
Proof.
  intros st.
  destruct (@Await_cancelled Z _ obs st 0%nat 0%nat 0%nat DeadlineExceeded (report_as "main")
              eq_refl
              (pool_one_unresolved [nil] Await_is_no_send)
              eq_refl eq_refl)
    as (Hb & st0 & st1 & st2 & H0 & _ & _ & H1 & H2 & H3 & H4 & _).
  split; [exact Hb |]. exists st0, st1, st2. auto 10.
Defined.

(** [f.Then(context.Background(), report)] *)
Lemma Then_runs_consumer_witness :
  exists st1,
    step (Run 0) (pool [_ <- Ctx.Then 0%nat Background report_then ;; Ret tt] []) = Some st1 /\
    at_thread st1 0 (Ret tt) /\
    at_thread st1 1 (r <- Ctx.Await 0%nat Background ;; report_then (fst r) (snd r)).
Proof.
  destruct (proj1 (@Then_runs_consumer Z _ obs
              (pool [_ <- Ctx.Then 0%nat Background report_then ;; Ret tt] [])
              0%nat 0%nat Background report_then (Ret tt) eq_refl) eq_refl)
    as (st1 & H1 & H2 & H3 & _).
  exists st1. auto.
Defined.

(** [report(Async(func() (int, error) { return 42, nil }).Await())] *)
Lemma Async_returns_future_witness :
  exists st1 st2 st3,
    step (Run 0) (boot (f <- Async (Ret (42, nil)) ;;
                        r <- Poll.Await f ;; report_as "main" r) []) = Some st1 /\
    step (Run 0) st1 = Some st2 /\
    at_thread st2 0 (r <- Poll.Await 0%nat ;; report_as "main" r) /\
    step (Sync 1 0) st2 = Some st3 /\
    at_thread st3 0 (report_as "main" (42, nil)).
Proof.
  destruct (@Async_returns_future Z _ obs
              (boot (f <- Async (Ret (42, nil)) ;;
                     r <- Poll.Await f ;; report_as "main" r) [])
              0%nat (Ret (42, nil)) (fun f => r <- Poll.Await f ;; report_as "main" r)
              eq_refl eq_refl)
    as (st1 & st2 & H1 & H2 & H3 & H4 & H5 & H6 & _ & _ & H7).
  destruct (proj2 (H7 [] st2 eq_refl) H5 H6 42 nil 0%nat (report_as "main") H4
              (or_introl H3))
    as (st3 & H8 & H9 & _).
  exists st1, st2, st3. auto 10.
Defined.

(** The stuck [resolve_alone] again, through the theorem. *)
Lemma blocking_operations_witness :
  blocked (resolve_alone_stuck 42 0) 0.
Proof.
  apply (proj1 (proj2 (proj2 (proj2 (proj2
           (@blocking_operations Z _ obs (resolve_alone_stuck 42 0) 0%nat 0%nat eq_refl)))))
         42 nil (report_as "main" (42, nil)) eq_refl eq_refl).
  intros [| j] q; simpl.
  - intros [= <-]. reflexivity.
  - by destruct j.
Defined.

(** ** The later theorems at work *)

Lemma AwaitWithTimeout_is_no_send p (k : prog unit) :
  (r <- Poll.AwaitWithTimeout 0%nat 3%nat ;;
   report_as (if snd r then "in time" else "timed out") (fst r)) <> Send 0%nat p k.
Proof. discriminate. Qed.

(** [report(f.AwaitWithTimeout(3))] on the open future that nobody
    resolves. *)
Lemma AwaitWithTimeout_times_out_witness :
  exists st1 st2 st3,
    step (Run 0)
      (pool [r <- Poll.AwaitWithTimeout 0%nat 3%nat ;;
             report_as (if snd r then "in time" else "timed out") (fst r)] []) = Some st1 /\
    run [Tick; Tick; Tick] st1 = Some st2 /\
    step (Alt 0) st2 = Some st3 /\
    at_thread st3 0 (report_as "timed out" (0, nil)).
Proof.
  destruct (@AwaitWithTimeout_times_out Z _ obs
              (pool [r <- Poll.AwaitWithTimeout 0%nat 3%nat ;;
                     report_as (if snd r then "in time" else "timed out") (fst r)] [])
              0%nat 0%nat 3%nat
              (fun r => report_as (if snd r then "in time" else "timed out") (fst r))
              eq_refl
              (pool_one_unresolved [] AwaitWithTimeout_is_no_send)
              eq_refl)
    as (st1 & H1 & _ & st2 & st3 & H2 & _ & _ & H3 & H4 & _).
  exists st1, st2, st3. auto.
Defined.

(** [f.Resolve(42, boom)] beside a goroutine that polls. *)
Lemma Get_takes_resolution_witness :
  exists st1 st2 st3,
    step (Run 1) (pool [_ <- Resolve 0%nat 42 boom ;; Ret tt;
                        o <- Poll.Get 0%nat ;; report_optional o] []) = Some st1 /\
    step (Sync 0 1) st1 = Some st2 /\
    at_thread st2 1 (report_as "present" (42, boom)) /\
    step (Run 0) st2 = Some st3 /\ is_closed st3 0.
Proof.
  destruct (@Get_takes_resolution Z _ obs
              (pool [_ <- Resolve 0%nat 42 boom ;; Ret tt;
                     o <- Poll.Get 0%nat ;; report_optional o] [])
              0%nat 1%nat 0%nat 42 boom (Ret tt) report_optional
              eq_refl eq_refl eq_refl eq_refl)
    as (st1 & st2 & st3 & H1 & H2 & H3 & H4 & _ & H5 & _).
  exists st1, st2, st3. auto 10.
Defined.

(** [var f Future[int]; f.Resolve(42, nil)] in a program that has made no
    channel. *)
Lemma nil_future_blocks_witness :
  blocked (boot (_ <- Resolve 0%nat 42 nil ;; Ret tt) []) 0.
Proof.
  exact (proj1 (@nil_future_blocks Z _ obs
                  (boot (_ <- Resolve 0%nat 42 nil ;; Ret tt) []) 0%nat 0%nat
                  eq_refl eq_refl)
               42 nil (Ret tt) eq_refl).
Defined.

(** ** Every schedule of [then_chain] *)

Lemma then_chain_step v e c st st' :
  then_chain_state v e st -> step c st = Some st' ->
  then_chain_state v e st'.
Proof.
  intros Hst Hs.
  destruct Hst;
    destruct c as [[| [| [| i]]] | [| [| [| i]]] [| [| [| j]]] | [| [| [| j]]] | | cx reason];
    simpl in Hs; try discriminate; injection Hs as <-; constructor.
Qed.

Lemma then_chain_run v e sched : forall st st',
  then_chain_state v e st -> run sched st = Some st' ->
  then_chain_state v e st'.
Proof.
  induction sched as [| c sched IH]; intros st st' Hst; cbn [run].
  - by intros [= <-].
  - destruct (step c st) as [st1 |] eqn:Hs; [| discriminate].
    intros Hr. eapply IH; [| exact Hr]. by eapply then_chain_step.
Qed.

(** X9: a continuation that resolves a second future (the package's
    [TestThen] and [TestThenWithError]): under every schedule the program
    does not panic and the only pair [main] gets from the second future is
    the provider's [(v, e)]; and there is a run in which [main] reports,
    every goroutine finishes and both futures are closed. *)
Theorem then_chain_every_run v e :
  (forall sched st, run sched (boot (then_chain v e) []) = Some st ->
     alive st /\ forall r, In ("main", r) (log st) -> r = (v, e)) /\
  (exists st,
     run [Run 0; Run 0; Run 0; Run 0; Sync 1 2; Run 1; Sync 2 0; Run 2; Run 0]%nat
         (boot (then_chain v e) []) = Some st /\
     log st = [("main", (v, e))] /\
     threads st = [Ret tt; Ret tt; Ret tt] /\ chans st = [true; true]).
Proof.
  split.
  - intros sched st Hr.
    assert (then_chain_state v e st) as Hst.
    { eapply then_chain_run; [| exact Hr]. apply tc_start. }
    destruct Hst; (split; [reflexivity |]); simpl; intros r Hin;
      intuition congruence.
  - eexists. split; [vm_compute; reflexivity |]. split_and!; reflexivity.
Qed.


(** ** Every schedule of [await_under_ctx] *)

Lemma await_under_ctx_step v c st st' :
  await_under_ctx_state v st -> step c st = Some st' ->
  await_under_ctx_state v st'.
Proof.
  intros Hst Hs.
  destruct Hst as [[r |] t | [r |] t | [r |] t | [r |] t | [r |] t | [r |] t | [r |] t
                  | r t | r t | r t];
    destruct c as [[| [| i]] | [| [| i]] [| [| j]] | [| [| j]] | | [| cx] reason];
    simpl in Hs; try discriminate; injection Hs as <-; constructor.
Qed.

Lemma await_under_ctx_run v sched : forall st st',
  await_under_ctx_state v st -> run sched st = Some st' ->
  await_under_ctx_state v st'.
Proof.
  induction sched as [| c sched IH]; intros st st' Hst; cbn [run].
  - by intros [= <-].
  - destruct (step c st) as [st1 |] eqn:Hs; [| discriminate].
    intros Hr. eapply IH; [| exact Hr]. by eapply await_under_ctx_step.
Qed.

(** X10: an [Await(ctx)] that gives up leaves the producer behind.  In
    [report(Async(func() (int, error) { return v, nil }).Await(ctx))],
    under every schedule and every cancellation of [ctx], the program
    does not panic and [main] reports either the provider's [(v, nil)] or
    [(0, reason)] with the reason [ctx] was cancelled with; and in every
    state in which [main] has reported the cancellation, [main] has
    finished while the goroutine started by [Async] is still in the send
    of its [Resolve], on the open channel, blocked: nothing awaits the
    future any more. *)
Theorem cancelled_Await_leaves_producer_blocked v :
  (forall sched st, run sched (boot (await_under_ctx v) [nil]) = Some st ->
     alive st /\
     (forall r, In ("main", r) (log st) ->
        r = (v, nil) \/ exists reason, r = (0, Some reason) /\ ctxs st = [Some reason]) /\
     (forall reason, In ("main", (0, Some reason)) (log st) ->
        at_thread st 0 (Ret tt) /\ at_thread st 1 (Resolve 0%nat v nil) /\
        is_open st 0 /\ blocked st 1)) /\
  (exists st,
     run [Run 0; Run 0; Cancel 0 DeadlineExceeded; Alt 0; Run 0; Run 0]%nat
         (boot (await_under_ctx v) [nil]) = Some st /\
     log st = [("main", (0, Some DeadlineExceeded))]).
Proof.
  split.
  - intros sched st Hr.
    assert (await_under_ctx_state v st) as Hst.
    { eapply await_under_ctx_run; [| exact Hr]. apply auc_start. }
    destruct Hst; (split; [reflexivity |]); unfold nil; simpl; split; intros r0 Hin;
      try (intuition congruence).
    + destruct Hin as [[= <-] | []]. right. eauto.
    + destruct Hin as [[= <-] | []]. unfold blocked. split_and!; try reflexivity.
      * intros [| [| j]]; reflexivity.
      * intros [| [| j]]; reflexivity.
  - eexists. split; [vm_compute; reflexivity | reflexivity].
Qed.

(** ** Every schedule of [two_awaiters] *)

Lemma two_awaiters_step v c st st' :
  two_awaiters_state v st -> step c st = Some st' ->
  two_awaiters_state v st'.
Proof.
  intros Hst Hs.
  destruct Hst;
    destruct c as [[| [| [| i]]] | [| [| [| i]]] [| [| [| j]]] | [| [| [| j]]] | | cx reason];
    simpl in Hs; try discriminate; injection Hs as <-; constructor.
Qed.

Lemma two_awaiters_run v sched : forall st st',
  two_awaiters_state v st -> run sched st = Some st' ->
  two_awaiters_state v st'.
Proof.
  induction sched as [| c sched IH]; intros st st' Hst; cbn [run].
  - by intros [= <-].
  - destruct (step c st) as [st1 |] eqn:Hs; [| discriminate].
    intros Hr. eapply IH; [| exact Hr]. by eapply two_awaiters_step.
Qed.

(** X11: two goroutines await one future and [main] resolves it with
    [Value(v)].  Under every schedule the program does not panic, each
    awaiter reports [(v, nil)] or [(0, nil)], and when both have reported,
    one has [(v, nil)] and the other [(0, nil)]: the value reaches one
    awaiter only.  Either awaiter can be the one: there is a run for
    each. *)
Theorem two_awaiters_every_run v :
  (forall sched st, run sched (boot (two_awaiters v) []) = Some st ->
     alive st /\
     (forall who r, In (who, r) (log st) -> r = (v, nil) \/ r = (0, nil)) /\
     (forall ra rb, In ("a", ra) (log st) -> In ("b", rb) (log st) ->
        (ra = (v, nil) /\ rb = (0, nil)) \/ (ra = (0, nil) /\ rb = (v, nil)))) /\
  (exists st,
     run [Run 0; Run 0; Run 0; Sync 0 1; Run 0; Run 1; Run 2; Run 2]%nat
         (boot (two_awaiters v) []) = Some st /\
     log st = [("a", (v, nil)); ("b", (0, nil))]) /\
  (exists st,
     run [Run 0; Run 0; Run 0; Sync 0 2; Run 0; Run 2; Run 1; Run 1]%nat
         (boot (two_awaiters v) []) = Some st /\
     log st = [("b", (v, nil)); ("a", (0, nil))]).
Proof.
  split_and!.
  - intros sched st Hr.
    assert (two_awaiters_state v st) as Hst.
    { eapply two_awaiters_run; [| exact Hr]. apply ta_start. }
    destruct Hst; (split; [reflexivity |]); simpl; split;
      intros; intuition (simplify_eq; eauto).
  - eexists. split; [vm_compute; reflexivity | reflexivity].
  - eexists. split; [vm_compute; reflexivity | reflexivity].
Qed.

(** ** Every schedule of [go_resolver_then_await] *)

Lemma go_resolver_step p c st st' :
  go_resolver_state p st -> step c st = Some st' -> go_resolver_state p st'.
Proof.
  intros Hst Hs.
  destruct Hst;
    destruct c as [[| [| i]] | [| [| i]] [| [| j]] | [| [| j]] | | cx reason];
    simpl in Hs; try discriminate; injection Hs as <-; constructor.
Qed.

Lemma go_resolver_run p sched : forall st st',
  go_resolver_state p st -> run sched st = Some st' -> go_resolver_state p st'.
Proof.
  induction sched as [| c sched IH]; intros st st' Hst; cbn [run].
  - by intros [= <-].
  - destruct (step c st) as [st1 |] eqn:Hs; [| discriminate].
    intros Hr. eapply IH; [| exact Hr]. by eapply go_resolver_step.
Qed.

Lemma go_resolver_reports p sched st :
  run sched (boot (go_resolver_then_await (fun f => sendAndClose f p)) []) = Some st ->
  alive st /\ forall r, In ("main", r) (log st) -> r = (val p, err p).
Proof.
  intros Hr.
  assert (go_resolver_state p st) as Hst.
  { eapply go_resolver_run; [| exact Hr]. apply gr_start. }
  destruct Hst; (split; [reflexivity |]); simpl; intros r Hin;
    intuition congruence.
Qed.

(** X12: the package's tests [TestResolve], [TestValue] and [TestError]:
    with the resolver started in a goroutine of its own and [main]
    awaiting under [context.Background()], under every schedule the
    program does not panic and the only pair [main] gets is [(v, e)] from
    [Resolve(v, e)], [(v, nil)] from [Value(v)] and [(0, e)] from
    [Error(e)]; and for each there is a run in which [main] reports. *)
Theorem resolver_tests_every_run v e :
  (forall sched st,
     run sched (boot (go_resolver_then_await (fun f => Resolve f v e)) []) = Some st ->
     alive st /\ forall r, In ("main", r) (log st) -> r = (v, e)) /\
  (forall sched st,
     run sched (boot (go_resolver_then_await (fun f => Value f v)) []) = Some st ->
     alive st /\ forall r, In ("main", r) (log st) -> r = (v, nil)) /\
  (forall sched st,
     run sched (boot (go_resolver_then_await (fun f => Error f e)) []) = Some st ->
     alive st /\ forall r, In ("main", r) (log st) -> r = (0, e)) /\
  (exists st,
     run [Run 0; Run 0; Sync 1 0; Run 0; Run 1]%nat
         (boot (go_resolver_then_await (fun f => Resolve f v e)) []) = Some st /\
     log st = [("main", (v, e))]) /\
  (exists st,
     run [Run 0; Run 0; Sync 1 0; Run 0; Run 1]%nat
         (boot (go_resolver_then_await (fun f => Value f v)) []) = Some st /\
     log st = [("main", (v, nil))]) /\
  (exists st,
     run [Run 0; Run 0; Sync 1 0; Run 0; Run 1]%nat
         (boot (go_resolver_then_await (fun f => Error f e)) []) = Some st /\
     log st = [("main", (0, e))]).
Proof.
  split_and!.
  - intros sched st Hr.
    exact (@go_resolver_reports (payload_lit (Some v) (Some e)) sched st Hr).
  - intros sched st Hr.
    exact (@go_resolver_reports (payload_lit (Some v) None) sched st Hr).
  - intros sched st Hr.
    exact (@go_resolver_reports (payload_lit None (Some e)) sched st Hr).
  - eexists. split; [vm_compute; reflexivity | reflexivity].
  - eexists. split; [vm_compute; reflexivity | reflexivity].
  - eexists. split; [vm_compute; reflexivity | reflexivity].
Qed.

End Scenario.
